(** * WebSocketClient: the reconnecting client of libnullnexus

    A shallow embedding of [include/libnullnexus/websocketclient.hpp].

    Every member function of the class that touches shared state runs
    under the one recursive mutex of the object, so the model takes one
    locked member-function call as one atomic transition of the object's
    state.  What the code cannot decide itself is an input of the
    transition: how far a connection attempt gets (resolve, connect,
    handshake), whether a blocking write throws, with which error code
    an asynchronous read completes, and when the peer drops the
    connection.  The state also carries what the Asio and Beast objects
    hold for the class: whether the stream is open, how many
    asynchronous reads are outstanding, the expiry of the two deadline
    timers, and a clock.  Every externally visible action is appended
    to a trace.  [handler_onread] takes no lock but runs on the worker
    thread like the timer handlers, and is one transition as well.
    The transitions are the calls that return: a [worker->join()]
    that returns has let the worker finish its outstanding read, and
    [join_blocks] says when a join does not return. *)

From Stdlib Require Import Bool Arith List String ZArith Lia.
Import ListNotations.
Open Scope string_scope.
Open Scope list_scope.
Open Scope nat_scope.

(** ** Data *)

(** [boost::system::error_code] as the handlers inspect it: falsy,
    equal to [net::error::operation_aborted], or any other error (its
    integer value is logged). *)
Inductive error_code : Type :=
| ec_ok
| ec_operation_aborted
| ec_fault (value : Z).

(** [if (ec)] *)
Definition ec_set (ec : error_code) : bool :=
  match ec with ec_ok => false | _ => true end.

(** [ec == net::error::basic_errors::operation_aborted] *)
Definition ec_is_aborted (ec : error_code) : bool :=
  match ec with ec_operation_aborted => true | _ => false end.

(** [websocket::stream<tcp::socket>]: all the class asks of it is
    [is_open()], which Beast answers with "the handshake completed and
    the stream has neither been closed nor failed". *)
Record stream : Type := mkStream { is_open : bool }.

(** The externally visible actions, in the order they happen. *)
Inductive obs : Type :=
| OLog (line : string)
| OLogError (value : Z)
| OSpawnWorker
| OJoinWorker
| OResolve (ok : bool)
| OConnect (ok : bool)
| OHandshake (ok : bool)
| OLiveCheck (live : bool)
| OWrite (queued : bool) (payload : string) (on_open : bool) (ok : bool)
| OCallback (payload : string)
| OAsyncRead
| OAsyncClose
| ODetachReconnect.

(** The members of [WebSocketClient] (the settings [host], [port],
    [endpoint] and the callback never change and are left out; the
    callback is observed through [OCallback]), followed by the state the
    library objects keep on behalf of the class. *)
Record State : Type := mkState {
  shouldBeActive : bool;
  ws : option stream;
  work : bool;                          (* [work] has a value *)
  worker : bool;                        (* [worker] has a value *)
  buf : string;
  start_delay_timer : option nat;       (* expiry of the pending wait *)
  message_queue_timer : option nat;     (* expiry of the pending wait *)
  messages : list string;               (* front of the queue first *)
  ioc_stopped : bool;                   (* [ioc.stopped()] *)
  reads : nat;                          (* outstanding [async_read]s *)
  reconnects : nat;                     (* detached [doReconnect] threads
                                           that do not hold the lock yet *)
  clock : nat;                          (* seconds *)
  trace : list obs
}.

Definition init : State :=
  mkState false None false false "" None None [] false 0 0 0 [].

Definition set_shouldBeActive (b : bool) (s : State) : State :=
  mkState b (ws s) (work s) (worker s) (buf s) (start_delay_timer s)
    (message_queue_timer s) (messages s) (ioc_stopped s) (reads s)
    (reconnects s) (clock s) (trace s).
Definition set_ws (w : option stream) (s : State) : State :=
  mkState (shouldBeActive s) w (work s) (worker s) (buf s)
    (start_delay_timer s) (message_queue_timer s) (messages s)
    (ioc_stopped s) (reads s) (reconnects s) (clock s) (trace s).
Definition set_work (b : bool) (s : State) : State :=
  mkState (shouldBeActive s) (ws s) b (worker s) (buf s)
    (start_delay_timer s) (message_queue_timer s) (messages s)
    (ioc_stopped s) (reads s) (reconnects s) (clock s) (trace s).
Definition set_worker (b : bool) (s : State) : State :=
  mkState (shouldBeActive s) (ws s) (work s) b (buf s)
    (start_delay_timer s) (message_queue_timer s) (messages s)
    (ioc_stopped s) (reads s) (reconnects s) (clock s) (trace s).
Definition set_buf (b : string) (s : State) : State :=
  mkState (shouldBeActive s) (ws s) (work s) (worker s) b
    (start_delay_timer s) (message_queue_timer s) (messages s)
    (ioc_stopped s) (reads s) (reconnects s) (clock s) (trace s).
Definition set_start_delay_timer (t : option nat) (s : State) : State :=
  mkState (shouldBeActive s) (ws s) (work s) (worker s) (buf s) t
    (message_queue_timer s) (messages s) (ioc_stopped s) (reads s)
    (reconnects s) (clock s) (trace s).
Definition set_message_queue_timer (t : option nat) (s : State) : State :=
  mkState (shouldBeActive s) (ws s) (work s) (worker s) (buf s)
    (start_delay_timer s) t (messages s) (ioc_stopped s) (reads s)
    (reconnects s) (clock s) (trace s).
Definition set_messages (q : list string) (s : State) : State :=
  mkState (shouldBeActive s) (ws s) (work s) (worker s) (buf s)
    (start_delay_timer s) (message_queue_timer s) q (ioc_stopped s)
    (reads s) (reconnects s) (clock s) (trace s).
Definition set_ioc_stopped (b : bool) (s : State) : State :=
  mkState (shouldBeActive s) (ws s) (work s) (worker s) (buf s)
    (start_delay_timer s) (message_queue_timer s) (messages s) b
    (reads s) (reconnects s) (clock s) (trace s).
Definition set_reads (n : nat) (s : State) : State :=
  mkState (shouldBeActive s) (ws s) (work s) (worker s) (buf s)
    (start_delay_timer s) (message_queue_timer s) (messages s)
    (ioc_stopped s) n (reconnects s) (clock s) (trace s).
Definition set_reconnects (n : nat) (s : State) : State :=
  mkState (shouldBeActive s) (ws s) (work s) (worker s) (buf s)
    (start_delay_timer s) (message_queue_timer s) (messages s)
    (ioc_stopped s) (reads s) n (clock s) (trace s).
Definition set_clock (n : nat) (s : State) : State :=
  mkState (shouldBeActive s) (ws s) (work s) (worker s) (buf s)
    (start_delay_timer s) (message_queue_timer s) (messages s)
    (ioc_stopped s) (reads s) (reconnects s) n (trace s).
Definition emit (o : obs) (s : State) : State :=
  mkState (shouldBeActive s) (ws s) (work s) (worker s) (buf s)
    (start_delay_timer s) (message_queue_timer s) (messages s)
    (ioc_stopped s) (reads s) (reconnects s) (clock s) (trace s ++ [o]).

(** ** A state monad for the member functions *)

Definition M (A : Type) : Type := State -> A * State.

Definition ret {A : Type} (a : A) : M A := fun s => (a, s).
Definition bind {A B : Type} (m : M A) (k : A -> M B) : M B :=
  fun s => let r := m s in k (fst r) (snd r).
Definition gets {A : Type} (f : State -> A) : M A := fun s => (f s, s).
Definition modify (f : State -> State) : M unit := fun s => (tt, f s).
Definition exec {A : Type} (m : M A) (s : State) : State := snd (m s).
Definition when (b : bool) (m : M unit) : M unit :=
  if b then m else ret tt.

Declare Scope cmd_scope.
Delimit Scope cmd_scope with cmd.
Notation "x <- m ;; k" := (bind m (fun x => k))
  (at level 61, m at next level, right associativity) : cmd_scope.
Notation "m ;; k" := (bind m (fun _ => k))
  (at level 61, right associativity) : cmd_scope.
Open Scope cmd_scope.

(** ** What the environment decides *)

(** One blocking [ws->write]: [w_ok] says whether it returns (rather
    than throws).  The stream is also touched by the read operation
    that runs on the worker thread without the mutex; [w_drop] says
    that this thread saw the connection go down since the previous
    statement of the drain loop. *)
Record wenv : Type := mkWenv { w_drop : bool; w_ok : bool }.

(** The writes of one drain, in order. *)
Definition wstream : Type := nat -> wenv.
Definition wtail (w : wstream) : wstream := fun i => w (S i).

(** How far [doConnectionAttempt] gets before an exception. *)
Inductive attempt_outcome : Type :=
| resolve_fails
| connect_fails
| handshake_fails
| connected.

Record conn_env : Type := mkConn {
  outcome : attempt_outcome;
  drain_env : wstream      (* writes of the drain after a success *)
}.

(** Completions that reach [handler_onread] while a thread waits in
    [worker->join()]: error code and the bytes the read put into
    [buf]. *)
Definition join_env : Type := list (error_code * string).

(** ** The member functions *)

Definition start_delay : nat := 10.      (* [seconds(10)] *)
Definition queue_retry_delay : nat := 1. (* [seconds(1)] *)

Definition log (line : string) : M unit := modify (emit (OLog line)).

(** [ws && ws->is_open()] *)
Definition ws_open (s : State) : bool :=
  match ws s with Some st => is_open st | None => false end.

(** [ws] has a value. *)
Definition ws_present (s : State) : bool :=
  match ws s with Some _ => true | None => false end.

(** The stream leaves the open state (peer close, transport error,
    or a close started locally). *)
Definition drop_stream (s : State) : State :=
  match ws s with
  | Some _ => set_ws (Some (mkStream false)) s
  | None => s
  end.

(** [handle_handler_error] *)
Definition handle_handler_error (ec : error_code) : M unit :=
  if ec_is_aborted ec then ret tt
  else
    modify (emit (OLogError (match ec with ec_fault v => v | _ => 0%Z end))) ;;
    modify (emit ODetachReconnect) ;;
    modify (fun s => set_reconnects (S (reconnects s)) s).

(** [startAsyncRead] *)
Definition startAsyncRead : M unit :=
  modify (emit OAsyncRead) ;;
  modify (fun s => set_reads (S (reads s)) s).

(** [handler_onread] *)
Definition handler_onread (ec : error_code) : M unit :=
  if ec_set ec then handle_handler_error ec
  else
    b <- gets buf ;;
    modify (emit (OCallback b)) ;;
    modify (set_buf "") ;;
    startAsyncRead.

(** An outstanding [async_read] completes: the operation is consumed,
    the received bytes are in [buf], and the bound handler runs. *)
Definition read_complete (ec : error_code) (data : string) : M unit :=
  modify (fun s => set_reads (pred (reads s)) s) ;;
  modify (fun s => set_buf (buf s ++ data) s) ;;
  handler_onread ec.

(** [message_queue_timer.cancel(); expires_from_now(seconds(1));
    async_wait(handle_timerMessageQueue)] *)
Definition armMessageQueueTimer : M unit :=
  modify (fun s => set_message_queue_timer (Some (clock s + queue_retry_delay)) s).

(** The [while (messages.size())] loop of [trySendMessageQueue]; [q] is
    [messages] on entry of the iteration. *)
Fixpoint drain_loop (q : list string) (w : wstream) : M unit :=
  match q with
  | [] => ret tt
  | m :: q' =>
      when (w_drop (w 0)) (modify drop_stream) ;;
      o <- gets ws_open ;;
      modify (emit (OWrite true m o (w_ok (w 0)))) ;;
      if w_ok (w 0) then
        modify (set_messages q') ;;
        drain_loop q' (wtail w)
      else
        armMessageQueueTimer
  end.

(** The guard of [trySendMessageQueue] passes:
    [!(!shouldBeActive || !ws || !ws->is_open())]. *)
Definition live (s : State) : bool :=
  shouldBeActive s && ws_open s.

(** [trySendMessageQueue] *)
Definition trySendMessageQueue (w : wstream) : M unit :=
  l <- gets live ;;
  modify (emit (OLiveCheck l)) ;;
  if negb l then ret tt
  else
    q <- gets messages ;;
    drain_loop q w.

(** [handle_timerMessageQueue] *)
Definition handle_timerMessageQueue (ec : error_code) (w : wstream) : M unit :=
  if ec_set ec then ret tt else trySendMessageQueue w.

(** [doConnectionAttempt] *)
Definition doConnectionAttempt (e : conn_env) : M bool :=
  let failed := (log "CO: Connection to server failed!" ;; ret false) in
  match outcome e with
  | resolve_fails =>
      modify (emit (OResolve false)) ;; failed
  | connect_fails =>
      modify (emit (OResolve true)) ;;
      modify (set_ws (Some (mkStream false))) ;;
      modify (emit (OConnect false)) ;; failed
  | handshake_fails =>
      modify (emit (OResolve true)) ;;
      modify (set_ws (Some (mkStream false))) ;;
      modify (emit (OConnect true)) ;;
      modify (emit (OHandshake false)) ;; failed
  | connected =>
      modify (emit (OResolve true)) ;;
      modify (set_ws (Some (mkStream false))) ;;
      modify (emit (OConnect true)) ;;
      modify (emit (OHandshake true)) ;;
      modify (set_ws (Some (mkStream true))) ;;
      log "CO: Connected to the server." ;;
      startAsyncRead ;;
      trySendMessageQueue (drain_env e) ;;
      ret true
  end.

(** [scheduleDelayedStart] *)
Definition scheduleDelayedStart : M unit :=
  modify (set_start_delay_timer None) ;;
  modify (fun s => set_start_delay_timer (Some (clock s + start_delay)) s).

(** [handler_startDelayTimer] *)
Definition handler_startDelayTimer (ec : error_code) (e : conn_env) : M unit :=
  if ec_set ec then ret tt
  else
    a <- gets shouldBeActive ;;
    if negb a then ret tt
    else
      ok <- doConnectionAttempt e ;;
      when (negb ok) scheduleDelayedStart.

(** [runIO] on a fresh thread: [ioc.run()] returns at once when the
    context is still stopped. *)
Definition spawn_runIO : M unit :=
  modify (emit OSpawnWorker) ;;
  st <- gets ioc_stopped ;;
  when st (log "IOC exited").

(** [internalStart] *)
Definition internalStart (e : conn_env) : M unit :=
  log "CO: Connecting to server" ;;
  wk <- gets worker ;;
  when (negb wk)
    (modify (set_work true) ;;
     modify (set_worker true) ;;
     spawn_runIO) ;;
  ok <- doConnectionAttempt e ;;
  when (negb ok) scheduleDelayedStart.

(** While a thread waits in [worker->join()] the worker finishes what
    is outstanding: the read completes as the environment says, and
    with [operation_aborted] at the latest when the stream is torn
    down. *)
Fixpoint finish_reads (jr : join_env) : M unit :=
  match jr with
  | [] =>
      n <- gets reads ;;
      when (0 <? n) (read_complete ec_operation_aborted "")
  | (ec, data) :: jr' =>
      n <- gets reads ;;
      when (0 <? n) (read_complete ec data ;; finish_reads jr')
  end.

(** [worker->join()] when it returns ([join_blocks] says when it does
    not): [ioc.run()] runs out of work and returns, which leaves the
    context stopped, and [runIO] logs its exit. *)
Definition join_worker (jr : join_env) : M unit :=
  finish_reads jr ;;
  st <- gets ioc_stopped ;;
  when (negb st) (modify (set_ioc_stopped true) ;; log "IOC exited") ;;
  modify (emit OJoinWorker).

(** [internalStop] *)
Definition internalStop (jr : join_env) : M unit :=
  modify (set_start_delay_timer None) ;;
  o <- gets ws_open ;;
  when o (modify (emit OAsyncClose) ;; modify drop_stream) ;;
  modify (set_message_queue_timer None) ;;
  wk <- gets worker ;;
  when wk
    (modify (set_work false) ;;
     join_worker jr ;;
     modify (set_worker false) ;;
     modify (set_ioc_stopped false)).

(** [doReconnect] *)
Definition doReconnect (jr : join_env) (e : conn_env) : M unit :=
  a <- gets shouldBeActive ;;
  if negb a then ret tt
  else internalStop jr ;; internalStart e.

(** [start] *)
Definition start (e : conn_env) : M unit :=
  a <- gets shouldBeActive ;;
  if a then ret tt
  else modify (set_shouldBeActive true) ;; internalStart e.

(** [stop] *)
Definition stop (jr : join_env) : M unit :=
  a <- gets shouldBeActive ;;
  if negb a then ret tt
  else
    modify (set_shouldBeActive false) ;;
    internalStop jr ;;
    log "CO: Stopped!".

(** [sendMessage]; [w 0] is the one write of the immediate path. *)
Definition sendMessage (msg : string) (sendIfOffline : bool) (w : wstream)
  : M bool :=
  if sendIfOffline then
    modify (fun s => set_messages (messages s ++ [msg]) s) ;;
    trySendMessageQueue w ;;
    ret true
  else
    p <- gets ws_present ;;
    if negb p then ret false
    else
      o <- gets ws_open ;;
      modify (emit (OWrite false msg o (w_ok (w 0)))) ;;
      ret (w_ok (w 0)).

(** ** The object as a transition system *)

(** [ioc.run()] is executing on the worker thread. *)
Definition io_running (s : State) : bool :=
  worker s && negb (ioc_stopped s).

(** One atomic transition: a call of the public interface by some
    thread, a handler run by the worker thread, the body of a detached
    reconnect thread, or an action of the outside world. *)
Inductive call : Type :=
| Start (e : conn_env)
| Stop (jr : join_env)
| SendMessage (msg : string) (sendIfOffline : bool) (w : wstream)
| ReadCompletes (ec : error_code) (data : string)
| ReconnectRuns (jr : join_env) (e : conn_env)
| StartDelayFires (e : conn_env)
| QueueRetryFires (w : wstream)
| PeerDrops
| Tick.

(** A deadline timer hands its handler to the running [io_context] once
    the expiry is reached; the wait is then no longer pending. *)
Definition expired (t : option nat) (s : State) : bool :=
  match t with
  | Some e => io_running s && (e <=? clock s)
  | None => false
  end.

(** The state a call leaves when it returns ([blocks] says when it
    does not).  A transition that is not enabled does not happen. *)
Definition step (c : call) (s : State) : State :=
  match c with
  | Start e => exec (start e) s
  | Stop jr => exec (stop jr) s
  | SendMessage msg b w => exec (sendMessage msg b w) s
  | ReadCompletes ec data =>
      if io_running s && (0 <? reads s)
      then exec (read_complete ec data) s
      else s
  | ReconnectRuns jr e =>
      if 0 <? reconnects s
      then exec (doReconnect jr e) (set_reconnects (pred (reconnects s)) s)
      else s
  | StartDelayFires e =>
      if expired (start_delay_timer s) s
      then exec (handler_startDelayTimer ec_ok e) (set_start_delay_timer None s)
      else s
  | QueueRetryFires w =>
      if expired (message_queue_timer s) s
      then exec (handle_timerMessageQueue ec_ok w) (set_message_queue_timer None s)
      else s
  | PeerDrops => drop_stream s
  | Tick => set_clock (S (clock s)) s
  end.

Fixpoint run (cs : list call) (s : State) : State :=
  match cs with
  | [] => s
  | c :: cs' => run cs' (step c s)
  end.

Definition reachable (s : State) : Prop := exists cs, s = run cs init.

(** ** Reading the trace *)

(** Payloads the drain wrote successfully, in order. *)
Fixpoint queue_written (t : list obs) : list string :=
  match t with
  | [] => []
  | OWrite true m _ true :: t' => m :: queue_written t'
  | _ :: t' => queue_written t'
  end.

(** Payloads handed to [sendMessage(m, true)], in call order. *)
Fixpoint enqueued (cs : list call) : list string :=
  match cs with
  | [] => []
  | SendMessage m true _ :: cs' => m :: enqueued cs'
  | _ :: cs' => enqueued cs'
  end.

Definition is_spawn (o : obs) : bool :=
  match o with OSpawnWorker => true | _ => false end.
Definition is_join (o : obs) : bool :=
  match o with OJoinWorker => true | _ => false end.
Definition is_resolve (o : obs) : bool :=
  match o with OResolve _ => true | _ => false end.
Definition is_live_check (o : obs) : bool :=
  match o with OLiveCheck _ => true | _ => false end.
Definition is_queue_write (o : obs) : bool :=
  match o with OWrite true _ _ _ => true | _ => false end.

Definition count (p : obs -> bool) (t : list obs) : nat :=
  List.length (filter p t).

(** Worker threads created, worker threads joined, and connection
    attempts begun (each begins with the resolve). *)
Definition spawned (s : State) : nat := count is_spawn (trace s).
Definition joined (s : State) : nat := count is_join (trace s).
Definition attempts (s : State) : nat := count is_resolve (trace s).

(** All writes answered [true]. *)
Definition all_ok : wstream := fun _ => mkWenv false true.
(** All writes throw. *)
Definition all_fail : wstream := fun _ => mkWenv false false.

(** ** Definitions used to state the properties *)

(** What is still queued after what the drain has written. *)
Definition fifo_sum (s : State) : list string :=
  queue_written (trace s) ++ messages s.

(** The write attempts of the drain: payload and whether it succeeded. *)
Fixpoint queue_attempts (t : list obs) : list (string * bool) :=
  match t with
  | [] => []
  | OWrite true m _ ok :: t' => (m, ok) :: queue_attempts t'
  | _ :: t' => queue_attempts t'
  end.

(** Of the first [n] writes of a drain, how many succeed before one
    throws. *)
Fixpoint leading_ok (w : wstream) (n : nat) : nat :=
  match n with
  | 0 => 0
  | S n' => if w_ok (w 0) then S (leading_ok (wtail w) n') else 0
  end.

(** The statement [if (!doConnectionAttempt()) scheduleDelayedStart();]
    that ends both [internalStart] and [handler_startDelayTimer]. *)
Definition attempt_then_retry (e : conn_env) : M unit :=
  ok <- doConnectionAttempt e ;; when (negb ok) scheduleDelayedStart.

(** The environment of the connection attempt a call may make. *)
Definition attempt_env (c : call) : option conn_env :=
  match c with
  | Start e | ReconnectRuns _ e | StartDelayFires e => Some e
  | _ => None
  end.

Definition is_Stop (c : call) : bool :=
  match c with Stop _ => true | _ => false end.
Definition is_Start (c : call) : bool :=
  match c with Start _ => true | _ => false end.


(** A write of the drain that went to a stream that was not open. *)
Definition is_blind_write (o : obs) : bool :=
  match o with OWrite true _ false _ => true | _ => false end.

(** Every write of the drain comes directly after a liveness check
    that passed. *)
Fixpoint checked_before_each_write (t : list obs) : bool :=
  match t with
  | [] => true
  | o :: t' =>
      match t' with
      | OWrite true _ _ _ :: _ =>
          match o with OLiveCheck true => true | _ => false end
      | _ => true
      end && checked_before_each_write t'
  end.

(** The state invariant of the object between transitions. *)
Record Inv (s : State) : Prop := mkInv {
  inv_worker : worker s = shouldBeActive s;
  inv_work : work s = shouldBeActive s;
  inv_ioc : ioc_stopped s = false;
  inv_idle : shouldBeActive s = false ->
             start_delay_timer s = None /\ message_queue_timer s = None /\
             reads s = 0 /\ ws_open s = false;
  inv_delay : start_delay_timer s <> None -> ws_open s = false /\ reads s = 0;
  inv_reads : reads s <= 1;
  inv_threads : spawned s = joined s + (if worker s then 1 else 0)
}.

(** Where a connection attempt starts from: the worker runs, no retry
    is pending, nothing is being read and the stream, if any, is not
    open. *)
Record Ready (s : State) : Prop := mkReady {
  rdy_active : shouldBeActive s = true;
  rdy_worker : worker s = true;
  rdy_work : work s = true;
  rdy_ioc : ioc_stopped s = false;
  rdy_delay : start_delay_timer s = None;
  rdy_reads : reads s = 0;
  rdy_closed : ws_open s = false;
  rdy_threads : spawned s = joined s + 1
}.

(** What [internalStop] leaves behind when a worker exists. *)
Record Stopped (s s' : State) : Prop := mkStopped {
  stp_active : shouldBeActive s' = shouldBeActive s;
  stp_messages : messages s' = messages s;
  stp_clock : clock s' = clock s;
  stp_present : ws_present s' = ws_present s;
  stp_worker : worker s' = false;
  stp_work : work s' = false;
  stp_ioc : ioc_stopped s' = false;
  stp_delay : start_delay_timer s' = None;
  stp_retry : message_queue_timer s' = None;
  stp_reads : reads s' = 0;
  stp_closed : ws_open s' = false;
  stp_spawned : spawned s' = spawned s;
  stp_joined : joined s' = S (joined s);
  stp_attempts : attempts s' = attempts s;
  stp_written : queue_written (trace s') = queue_written (trace s)
}.

(** The object waits for the start-delay timer: DesiredState is true,
    the timer is pending for [t], and no reconnect thread is about. *)
Record Waiting (t : nat) (s : State) : Prop := mkWaiting {
  wt_inv : Inv s;
  wt_active : shouldBeActive s = true;
  wt_delay : start_delay_timer s = Some t;
  wt_reconnects : reconnects s = 0
}.

(** What decides whether the object holds a handle or waits to retry. *)
Definition footing (s : State) : bool * option nat * bool :=
  (shouldBeActive s, start_delay_timer s, ws_present s).


(** A command leaves an observation of the state as it was. *)
Definition preserves {X A : Type} (f : State -> X) (m : M A) : Prop :=
  forall s, f (snd (m s)) = f s.

(** ** Calls that do not return *)




(** ** How the last connection attempt ended *)





(** ** Further notions for the properties of the whole object *)

(** A command keeps a property of the state. *)
Definition keeps {A : Type} (P : State -> Prop) (m : M A) : Prop :=
  forall s, P s -> P (snd (m s)).

(** No pending wait lies further ahead than the delay its timer is
    armed with. *)
Definition timers_bounded (s : State) : Prop :=
  match start_delay_timer s with
  | Some t => t <= clock s + start_delay
  | None => True
  end /\
  match message_queue_timer s with
  | Some t => t <= clock s + queue_retry_delay
  | None => True
  end.

(** An outstanding read belongs to a handle. *)
Definition read_has_handle (s : State) : Prop :=
  0 < reads s -> ws_present s = true.

(** [ws] has a value. *)
Definition has_handle (s : State) : Prop := ws_present s = true.

(** Payloads handed to the callback, in order. *)
Fixpoint delivered (t : list obs) : list string :=
  match t with
  | [] => []
  | OCallback p :: t' => p :: delivered t'
  | _ :: t' => delivered t'
  end.

(** Nothing arrives while the caller waits in [worker->join()]. *)
Definition quiet_join (c : call) : bool :=
  match c with
  | Stop (_ :: _) | ReconnectRuns (_ :: _) _ => false
  | _ => true
  end.

(** * Proofs *)

Lemma count_app p t u : count p (t ++ u) = count p t + count p u.
Proof. unfold count. rewrite filter_app, length_app. reflexivity. Qed.

Lemma queue_written_app t u :
  queue_written (t ++ u) = queue_written t ++ queue_written u.
Proof.
  induction t as [|o t IH]; simpl; [reflexivity|].
  destruct o as [| | | | | | | |[] ? ? []| | | |]; simpl; rewrite IH; reflexivity.
Qed.

Ltac unfold_cmd :=
  unfold exec, start, stop, sendMessage, doReconnect, internalStop,
    join_worker, internalStart, spawn_runIO, handler_startDelayTimer,
    scheduleDelayedStart, doConnectionAttempt, handle_timerMessageQueue,
    trySendMessageQueue, armMessageQueueTimer, read_complete,
    handler_onread, startAsyncRead, handle_handler_error, log,
    when, bind, gets, modify, ret in *.

(** Whatever the elementary updates of the drain loop preserve, the
    loop preserves. *)
Lemma drain_loop_preserves (P : State -> Prop) :
  (forall s, P s -> P (drop_stream s)) ->
  (forall s m o ok, P s -> P (emit (OWrite true m o ok) s)) ->
  (forall s q, P s -> P (set_messages q s)) ->
  (forall s t, P s -> P (set_message_queue_timer t s)) ->
  forall q w s, P s -> P (exec (drain_loop q w) s).
Proof.
  intros Hd He Hm Ht q. induction q as [|m q IH]; intros w s H; simpl.
  - exact H.
  - unfold exec, bind, when, gets, modify, ret, armMessageQueueTimer. simpl.
    destruct (w_drop (w 0)), (w_ok (w 0)); simpl.
    all: try (apply IH; apply Hm; apply He; try apply Hd; exact H).
    all: apply Ht; apply He; try apply Hd; exact H.
Qed.

Lemma finish_reads_preserves (P : State -> Prop) :
  (forall s ec d, P s -> P (exec (read_complete ec d) s)) ->
  forall jr s, P s -> P (exec (finish_reads jr) s).
Proof.
  intros Hr jr. induction jr as [|[ec d] jr IH]; intros s H; simpl.
  - unfold exec, bind, gets, when. simpl.
    destruct (0 <? reads s); [apply Hr; exact H | exact H].
  - unfold exec, bind, gets, when. simpl.
    destruct (0 <? reads s); [|exact H].
    apply IH. apply Hr. exact H.
Qed.

Lemma finish_reads_done jr : forall s,
  reads s <= 1 -> reads (exec (finish_reads jr) s) = 0.
Proof.
  induction jr as [|[ec d] jr IH]; intros s H; simpl.
  - unfold_cmd. simpl. destruct (reads s) as [|[|n]] eqn:E; simpl; try lia.
  - unfold exec, bind, gets, when. simpl.
    destruct (reads s) as [|[|n]] eqn:E; simpl; try lia.
    apply IH. unfold_cmd. simpl. rewrite E. destruct ec; simpl; lia.
Qed.


Lemma count_snoc p t o : count p (t ++ [o]) = count p t + (if p o then 1 else 0).
Proof. rewrite count_app. unfold count. simpl. destruct (p o); reflexivity. Qed.

Ltac frame_step :=
  let s1 := fresh "s" in
  intros s1; intros; unfold drop_stream, ws_present, ws_open in *;
  try (let E := fresh "E" in
       destruct (ws s1) eqn:E; simpl in *; rewrite ?E in * );
  simpl in *; auto.

Ltac drain_frame :=
  intros;
  match goal with
  | |- _ (snd (drain_loop ?q ?w ?s)) = _ =>
      change (snd (drain_loop q w s)) with (exec (drain_loop q w) s);
      pattern (exec (drain_loop q w) s);
      apply drain_loop_preserves; [ frame_step .. | reflexivity ]
  end.

Lemma drain_shouldBeActive q w s :
  shouldBeActive (snd (drain_loop q w s)) = shouldBeActive s.
Proof. drain_frame. Qed.
Lemma drain_work q w s : work (snd (drain_loop q w s)) = work s.
Proof. drain_frame. Qed.
Lemma drain_worker q w s : worker (snd (drain_loop q w s)) = worker s.
Proof. drain_frame. Qed.
Lemma drain_buf q w s : buf (snd (drain_loop q w s)) = buf s.
Proof. drain_frame. Qed.
Lemma drain_start_delay_timer q w s :
  start_delay_timer (snd (drain_loop q w s)) = start_delay_timer s.
Proof. drain_frame. Qed.
Lemma drain_ioc_stopped q w s :
  ioc_stopped (snd (drain_loop q w s)) = ioc_stopped s.
Proof. drain_frame. Qed.
Lemma drain_reads q w s : reads (snd (drain_loop q w s)) = reads s.
Proof. drain_frame. Qed.
Lemma drain_reconnects q w s :
  reconnects (snd (drain_loop q w s)) = reconnects s.
Proof. drain_frame. Qed.
Lemma drain_clock q w s : clock (snd (drain_loop q w s)) = clock s.
Proof. drain_frame. Qed.
Lemma drain_ws_present q w s :
  ws_present (snd (drain_loop q w s)) = ws_present s.
Proof. drain_frame. Qed.

Lemma drain_count p q w s :
  (forall m o ok, p (OWrite true m o ok) = false) ->
  count p (trace (snd (drain_loop q w s))) = count p (trace s).
Proof.
  intros Hp.
  change (snd (drain_loop q w s)) with (exec (drain_loop q w) s).
  pattern (exec (drain_loop q w) s).
  apply drain_loop_preserves; [ frame_step | | frame_step .. | reflexivity ].
  intros s1 m o ok H. simpl. rewrite count_snoc, Hp. lia.
Qed.

Lemma drain_spawned q w s :
  count is_spawn (trace (snd (drain_loop q w s))) = count is_spawn (trace s).
Proof. apply drain_count. reflexivity. Qed.
Lemma drain_joined q w s :
  count is_join (trace (snd (drain_loop q w s))) = count is_join (trace s).
Proof. apply drain_count. reflexivity. Qed.
Lemma drain_attempts q w s :
  count is_resolve (trace (snd (drain_loop q w s))) = count is_resolve (trace s).
Proof. apply drain_count. reflexivity. Qed.
Lemma drain_ws_present' q w s :
  match ws (snd (drain_loop q w s)) with Some _ => true | None => false end
  = match ws s with Some _ => true | None => false end.
Proof. exact (drain_ws_present q w s). Qed.

Create Rewrite HintDb frame.
#[export] Hint Rewrite count_snoc queue_written_app app_nil_r : frame.
#[export] Hint Rewrite drain_shouldBeActive drain_work drain_worker drain_buf
  drain_start_delay_timer drain_ioc_stopped drain_reads drain_reconnects
  drain_clock drain_ws_present drain_ws_present' drain_spawned drain_joined drain_attempts
  : frame.

(** The queue and what the drain has written so far always add up
    to the same sequence. *)
Lemma drain_loop_fifo q : forall w s,
  messages s = q ->
  queue_written (trace (snd (drain_loop q w s))) ++ messages (snd (drain_loop q w s))
  = queue_written (trace s) ++ q.
Proof.
  induction q as [|m q IH]; intros w s Hq; simpl.
  - rewrite Hq. reflexivity.
  - unfold bind, when, gets, modify, ret, armMessageQueueTimer.
    destruct (w_ok (w 0)) eqn:Eok; simpl.
    + rewrite IH by (destruct (w_drop (w 0)); reflexivity).
      destruct (w_drop (w 0)); simpl;
        unfold drop_stream; try destruct (ws s); simpl;
        rewrite queue_written_app; simpl; rewrite <- app_assoc; reflexivity.
    + destruct (w_drop (w 0)); simpl;
        unfold drop_stream; try destruct (ws s); simpl;
        rewrite queue_written_app; simpl; rewrite app_nil_r, Hq; reflexivity.
Qed.

Ltac reads_frame :=
  intros;
  match goal with
  | |- _ (snd (finish_reads ?jr ?s)) = _ =>
      change (snd (finish_reads jr s)) with (exec (finish_reads jr) s);
      pattern (exec (finish_reads jr) s);
      apply finish_reads_preserves; [ | reflexivity ];
      let s1 := fresh "s" in
      let ec := fresh "ec" in
      intros s1 ec; intros; unfold_cmd; destruct ec; simpl in *; auto
  end.

Lemma finish_reads_shouldBeActive jr s :
  shouldBeActive (snd (finish_reads jr s)) = shouldBeActive s.
Proof. reads_frame. Qed.
Lemma finish_reads_ws jr s : ws (snd (finish_reads jr s)) = ws s.
Proof. reads_frame. Qed.
Lemma finish_reads_work jr s : work (snd (finish_reads jr s)) = work s.
Proof. reads_frame. Qed.
Lemma finish_reads_worker jr s : worker (snd (finish_reads jr s)) = worker s.
Proof. reads_frame. Qed.
Lemma finish_reads_start_delay_timer jr s :
  start_delay_timer (snd (finish_reads jr s)) = start_delay_timer s.
Proof. reads_frame. Qed.
Lemma finish_reads_message_queue_timer jr s :
  message_queue_timer (snd (finish_reads jr s)) = message_queue_timer s.
Proof. reads_frame. Qed.
Lemma finish_reads_messages jr s : messages (snd (finish_reads jr s)) = messages s.
Proof. reads_frame. Qed.
Lemma finish_reads_ioc_stopped jr s :
  ioc_stopped (snd (finish_reads jr s)) = ioc_stopped s.
Proof. reads_frame. Qed.
Lemma finish_reads_clock jr s : clock (snd (finish_reads jr s)) = clock s.
Proof. reads_frame. Qed.

Lemma finish_reads_count p jr s :
  (forall m, p (OCallback m) = false) -> p OAsyncRead = false ->
  (forall v, p (OLogError v) = false) -> p ODetachReconnect = false ->
  count p (trace (snd (finish_reads jr s))) = count p (trace s).
Proof.
  intros H1 H2 H3 H4.
  change (snd (finish_reads jr s)) with (exec (finish_reads jr) s).
  pattern (exec (finish_reads jr) s).
  apply finish_reads_preserves; [ | reflexivity ].
  intros s1 ec d H. unfold_cmd. destruct ec; simpl;
    rewrite ?count_snoc, ?H1, ?H2, ?H3, ?H4; lia.
Qed.

Lemma finish_reads_spawned jr s :
  count is_spawn (trace (snd (finish_reads jr s))) = count is_spawn (trace s).
Proof. apply finish_reads_count; reflexivity. Qed.
Lemma finish_reads_joined jr s :
  count is_join (trace (snd (finish_reads jr s))) = count is_join (trace s).
Proof. apply finish_reads_count; reflexivity. Qed.
Lemma finish_reads_attempts jr s :
  count is_resolve (trace (snd (finish_reads jr s))) = count is_resolve (trace s).
Proof. apply finish_reads_count; reflexivity. Qed.

Lemma finish_reads_queue_written jr s :
  queue_written (trace (snd (finish_reads jr s))) = queue_written (trace s).
Proof.
  change (snd (finish_reads jr s)) with (exec (finish_reads jr) s).
  pattern (exec (finish_reads jr) s).
  apply finish_reads_preserves; [ | reflexivity ].
  intros s1 ec d H. unfold_cmd. destruct ec; simpl;
    rewrite ?queue_written_app; simpl; rewrite ?app_nil_r; assumption.
Qed.

#[export] Hint Rewrite finish_reads_shouldBeActive finish_reads_ws finish_reads_work finish_reads_worker
  finish_reads_start_delay_timer finish_reads_message_queue_timer finish_reads_messages
  finish_reads_ioc_stopped finish_reads_clock finish_reads_spawned finish_reads_joined finish_reads_attempts
  finish_reads_queue_written : frame.


Lemma Inv_init : Inv init.
Proof. split; simpl; auto; try tauto. Qed.


Ltac crunch :=
  unfold spawned, joined, attempts, ws_present, ws_open in *;
  repeat (simpl; autorewrite with frame); simpl.

Lemma Inv_drain w s : Inv s -> Inv (exec (trySendMessageQueue w) s).
Proof.
  intros I. pose proof I as [Hw Hk Hi Hidle Hd Hr Ht].
  unfold_cmd. simpl. destruct (live s) eqn:El; simpl.
  - unfold live in El. apply andb_prop in El as [Ea Eo].
    split; crunch; try assumption; try congruence; try lia.
    intros H. apply Hd in H. destruct H; congruence.
  - split; crunch; try assumption; lia.
Qed.



Lemma attempt_failed_eq e s :
  outcome e <> connected ->
  exec (attempt_then_retry e) s
  = set_start_delay_timer (Some (clock s + start_delay))
      (emit (OLog "CO: Connection to server failed!")
         match outcome e with
         | resolve_fails => emit (OResolve false) s
         | connect_fails =>
             emit (OConnect false)
               (set_ws (Some (mkStream false)) (emit (OResolve true) s))
         | _ =>
             emit (OHandshake false)
               (emit (OConnect true)
                  (set_ws (Some (mkStream false)) (emit (OResolve true) s)))
         end).
Proof.
  intros H. unfold attempt_then_retry, doConnectionAttempt.
  destruct (outcome e); [vm_compute; reflexivity .. | congruence].
Qed.

Lemma attempt_connected_eq e s :
  outcome e = connected ->
  exec (attempt_then_retry e) s
  = exec (trySendMessageQueue (drain_env e))
      (set_reads (S (reads s))
         (emit OAsyncRead
            (emit (OLog "CO: Connected to the server.")
               (set_ws (Some (mkStream true))
                  (emit (OHandshake true)
                     (emit (OConnect true)
                        (set_ws (Some (mkStream false))
                           (emit (OResolve true) s)))))))).
Proof.
  intros H. unfold attempt_then_retry, doConnectionAttempt. rewrite H.
  vm_compute. reflexivity.
Qed.

Lemma Inv_attempt e s : Ready s -> Inv (exec (attempt_then_retry e) s).
Proof.
  intros [Ha Hw Hk Hi Hd Hr Ho Ht].
  destruct (outcome e) eqn:Eo.
  4: {
    rewrite attempt_connected_eq by exact Eo.
    unfold trySendMessageQueue, exec, bind, gets, modify, ret, live.
    simpl. rewrite Ha. simpl.
    split; crunch; rewrite ?Ha, ?Hw, ?Hk, ?Hr; auto; try congruence; try lia.
  }
  all: rewrite attempt_failed_eq by congruence; rewrite Eo;
    unfold ws_open in *; split; crunch;
    rewrite ?Ha, ?Hw, ?Hk, ?Hr; auto; try congruence; try lia.
Qed.

Lemma internalStart_idle e s :
  worker s = false -> ioc_stopped s = false ->
  exec (internalStart e) s
  = exec (attempt_then_retry e)
      (emit OSpawnWorker (set_worker true (set_work true
         (emit (OLog "CO: Connecting to server") s)))).
Proof.
  intros Hw Hi. unfold internalStart, attempt_then_retry, spawn_runIO, log, exec,
    bind, when, gets, modify, ret. simpl. rewrite Hw. simpl. rewrite Hi. reflexivity.
Qed.


Lemma internalStop_Stopped jr s :
  worker s = true -> ioc_stopped s = false -> reads s <= 1 ->
  Stopped s (exec (internalStop jr) s).
Proof.
  intros Hw Hi Hr.
  unfold internalStop, join_worker, log, exec, bind, when, gets, modify, ret.
  simpl. unfold ws_open, ws_present, drop_stream.
  assert (Hd : forall s1, reads s1 = reads s -> reads (snd (finish_reads jr s1)) = 0).
  { intros s1 E. apply (finish_reads_done jr s1). lia. }
  destruct (ws s) as [[[]]|] eqn:Ews;
    repeat (simpl; rewrite ?Ews, ?Hw, ?Hi; autorewrite with frame).
  all: split; crunch; rewrite ?Ews, ?Hd by reflexivity;
       try reflexivity; try lia.
Qed.

Ltac inv_easy :=
  let I := fresh "I" in
  intros I; destruct I as [Hw Hk Hi Hidle Hd Hr Ht];
  split; crunch; auto; try (intuition congruence).

Lemma Inv_set_messages q s : Inv s -> Inv (set_messages q s).
Proof. inv_easy. Qed.
Lemma Inv_set_reconnects n s : Inv s -> Inv (set_reconnects n s).
Proof. inv_easy. Qed.
Lemma Inv_set_clock n s : Inv s -> Inv (set_clock n s).
Proof. inv_easy. Qed.
Lemma Inv_cancel_retry s : Inv s -> Inv (set_message_queue_timer None s).
Proof. inv_easy. Qed.
Lemma Inv_drop_stream s : Inv s -> Inv (drop_stream s).
Proof.
  unfold drop_stream. destruct (ws s) eqn:E; [|tauto].
  inv_easy.
Qed.
Lemma Inv_emit o s :
  is_spawn o = false -> is_join o = false -> Inv s -> Inv (emit o s).
Proof. intros H1 H2. inv_easy. rewrite H1, H2. lia. Qed.

Lemma Inv_step c s : Inv s -> Inv (step c s).
Proof.
  intros I. pose proof I as [Hw Hk Hi Hidle Hd Hr Ht].
  destruct c; simpl.
  - (* start *)
    unfold start, exec, bind, gets, modify. simpl.
    destruct (shouldBeActive s) eqn:Ea; [exact I|].
    destruct (Hidle eq_refl) as (H1 & H2 & H3 & H4).
    change (Inv (exec (internalStart e) (set_shouldBeActive true s))).
    rewrite internalStart_idle by (simpl; congruence).
    apply Inv_attempt. split; crunch; auto; try lia.
    rewrite Ht, Hw. lia.
  - (* stop *)
    unfold stop, exec, bind, gets, modify, log. simpl.
    destruct (shouldBeActive s) eqn:Ea; [|exact I]. simpl.
    destruct (internalStop_Stopped jr (set_shouldBeActive false s))
      as [S1 S2 S3 S4 S5 S6 S7 S8 S9 S10 S11 S12 S13 S14 S15]; simpl; auto.
    unfold internalStop in *. unfold exec in *.
    set (s' := snd (_ (set_shouldBeActive false s))) in *.
    clearbody s'. simpl in *.
    split; crunch; auto; try congruence; try lia.
    simpl in *. rewrite S12, S13, S5, Ht, Hw. lia.
  - (* sendMessage *)
    unfold sendMessage. destruct sendIfOffline.
    + change (Inv (exec (trySendMessageQueue w)
                     (set_messages (messages s ++ [msg]) s))).
      apply Inv_drain, Inv_set_messages, I.
    + unfold exec, bind, gets, modify, ret. simpl.
      destruct (ws_present s); simpl; [|exact I].
      apply Inv_emit; auto.
  - (* a read completes *)
    destruct (io_running s && (0 <? reads s)) eqn:E; [|exact I].
    apply andb_prop in E as [_ E]. apply Nat.ltb_lt in E.
    assert (Er : reads s = 1) by lia.
    assert (Ea : shouldBeActive s = true).
    { destruct (shouldBeActive s); [reflexivity|].
      destruct (Hidle eq_refl) as (_ & _ & ? & _). lia. }
    assert (Et : start_delay_timer s = None).
    { destruct (start_delay_timer s) eqn:Et; [|reflexivity].
      destruct Hd as [_ ?]; [congruence | lia]. }
    unfold_cmd. destruct ec; simpl; split; crunch;
      rewrite ?Er; auto; try congruence; try lia.
  - (* a detached reconnect runs *)
    destruct (0 <? reconnects s); [|exact I].
    unfold doReconnect, exec, bind, gets. simpl.
    destruct (shouldBeActive s) eqn:Ea; simpl;
      [|apply Inv_set_reconnects, I].
    set (s0 := set_reconnects _ s).
    change (Inv (exec (internalStart e) (exec (internalStop jr) s0))).
    destruct (internalStop_Stopped jr s0)
      as [S1 S2 S3 S4 S5 S6 S7 S8 S9 S10 S11 S12 S13 S14 S15];
      simpl; try congruence.
    rewrite internalStart_idle by assumption.
    apply Inv_attempt.
    split; crunch; rewrite ?S1, ?S8, ?S10, ?S12, ?S13; auto.
    subst s0. simpl. rewrite Ht, Hw. lia.
  - (* the start delay expires *)
    destruct (start_delay_timer s) as [t|] eqn:Et; simpl; [|exact I].
    destruct (io_running s && (t <=? clock s)); [|exact I].
    destruct Hd as [Ho Hrd]; [congruence|].
    unfold handler_startDelayTimer, exec, bind, gets, ret. simpl.
    destruct (shouldBeActive s) eqn:Ea; simpl.
    + apply Inv_attempt. split; crunch; auto; try congruence.
      rewrite Ht, Hw. reflexivity.
    + destruct (Hidle eq_refl) as (? & _). congruence.
  - (* the queue retry expires *)
    destruct (expired (message_queue_timer s) s); [|exact I].
    apply Inv_drain, Inv_cancel_retry, I.
  - apply Inv_drop_stream, I.
  - apply Inv_set_clock, I.
Qed.

(** ** Commands that leave an observation alone *)

Lemma preserves_ret {X A} (f : State -> X) (a : A) : preserves f (ret a).
Proof. intros s. reflexivity. Qed.

Lemma preserves_gets {X A} (f : State -> X) (g : State -> A) :
  preserves f (gets g).
Proof. intros s. reflexivity. Qed.

Lemma preserves_modify {X} (f : State -> X) (g : State -> State) :
  (forall s, f (g s) = f s) -> preserves f (modify g).
Proof. intros H s. apply H. Qed.

Lemma preserves_bind {X A B} (f : State -> X) (m : M A) (k : A -> M B) :
  preserves f m -> (forall a, preserves f (k a)) -> preserves f (bind m k).
Proof. intros Hm Hk s. unfold bind. simpl. rewrite Hk, Hm. reflexivity. Qed.

Lemma preserves_when {X} (f : State -> X) (b : bool) (m : M unit) :
  preserves f m -> preserves f (when b m).
Proof. intros H. destruct b; [exact H | apply preserves_ret]. Qed.

Lemma preserves_drain_loop {X} (f : State -> X) :
  (forall s, f (drop_stream s) = f s) ->
  (forall s m o ok, f (emit (OWrite true m o ok) s) = f s) ->
  (forall s q, f (set_messages q s) = f s) ->
  (forall s t, f (set_message_queue_timer t s) = f s) ->
  forall q w, preserves f (drain_loop q w).
Proof.
  intros H1 H2 H3 H4 q w s.
  change (snd (drain_loop q w s)) with (exec (drain_loop q w) s).
  pattern (exec (drain_loop q w) s). apply drain_loop_preserves;
    [ intros s1 H; rewrite H1 | intros s1 m o ok H; rewrite H2
    | intros s1 q1 H; rewrite H3 | intros s1 t H; rewrite H4 | ];
    auto.
Qed.

Lemma preserves_finish_reads {X} (f : State -> X) :
  (forall ec d, preserves f (read_complete ec d)) ->
  forall jr, preserves f (finish_reads jr).
Proof.
  intros H jr s.
  change (snd (finish_reads jr s)) with (exec (finish_reads jr) s).
  pattern (exec (finish_reads jr) s). apply finish_reads_preserves; auto.
  intros s1 ec d E. unfold exec. rewrite H. exact E.
Qed.

(** Walks through a command built from the combinators; [leaf] closes
    the obligations about single updates. *)
Create HintDb pres.

Ltac pres_with leaf :=
  repeat first
    [ solve [ auto 1 with pres nocore ]
    | apply preserves_ret
    | apply preserves_gets
    | apply preserves_bind; [ | intros ? ]
    | apply preserves_when
    | apply preserves_modify; leaf
    | apply preserves_drain_loop; leaf
    | apply preserves_finish_reads; intros ? ?;
      unfold read_complete, handler_onread, handle_handler_error,
        startAsyncRead
    | match goal with
      | |- preserves _ (if ?b then _ else _) => destruct b
      | |- preserves _ (match outcome ?e with _ => _ end) => destruct (outcome e)
      end ].

Ltac unfold_members :=
  unfold start, stop, sendMessage, doReconnect, internalStop,
    join_worker, internalStart, spawn_runIO, handler_startDelayTimer,
    scheduleDelayedStart, doConnectionAttempt, handle_timerMessageQueue,
    trySendMessageQueue, armMessageQueueTimer, read_complete,
    handler_onread, startAsyncRead, handle_handler_error, log.

Ltac leaf_refl :=
  let s1 := fresh "s" in
  intros s1; intros; unfold drop_stream;
  try destruct (ws s1); reflexivity.

(** Only the tick moves the clock. *)
Lemma clock_start e : preserves clock (start e).
Proof. unfold_members. pres_with leaf_refl. Qed.
Lemma clock_stop jr : preserves clock (stop jr).
Proof. unfold_members. pres_with leaf_refl. Qed.
Lemma clock_sendMessage m b w : preserves clock (sendMessage m b w).
Proof. unfold_members. pres_with leaf_refl. Qed.
Lemma clock_read_complete ec d : preserves clock (read_complete ec d).
Proof. unfold_members. pres_with leaf_refl. Qed.
Lemma clock_doReconnect jr e : preserves clock (doReconnect jr e).
Proof. unfold_members. pres_with leaf_refl. Qed.
Lemma clock_handler_startDelayTimer ec e :
  preserves clock (handler_startDelayTimer ec e).
Proof. unfold_members. pres_with leaf_refl. Qed.
Lemma clock_handle_timerMessageQueue ec w :
  preserves clock (handle_timerMessageQueue ec w).
Proof. unfold_members. pres_with leaf_refl. Qed.

Lemma clock_step c s : clock s <= clock (step c s).
Proof.
  destruct c; simpl; unfold exec.
  - rewrite clock_start. lia.
  - rewrite clock_stop. lia.
  - rewrite clock_sendMessage. lia.
  - destruct (_ && _); [rewrite clock_read_complete|]; simpl; lia.
  - destruct (_ <? _); [rewrite clock_doReconnect|]; simpl; lia.
  - destruct (expired _ _); [rewrite clock_handler_startDelayTimer|]; simpl; lia.
  - destruct (expired _ _); [rewrite clock_handle_timerMessageQueue|]; simpl; lia.
  - unfold drop_stream. destruct (ws s); simpl; lia.
  - simpl. lia.
Qed.

Lemma clock_run cs : forall s, clock s <= clock (run cs s).
Proof.
  induction cs as [|c cs IH]; intros s; simpl; [lia|].
  specialize (IH (step c s)). pose proof (clock_step c s). lia.
Qed.

Lemma run_app cs1 cs2 s : run (cs1 ++ cs2) s = run cs2 (run cs1 s).
Proof. revert s. induction cs1 as [|c cs1 IH]; intros s; simpl; auto. Qed.

Lemma Inv_run cs : forall s, Inv s -> Inv (run cs s).
Proof.
  induction cs as [|c cs IH]; intros s H; simpl; [exact H|].
  apply IH, Inv_step, H.
Qed.

Lemma Inv_reachable s : reachable s -> Inv s.
Proof. intros [cs ->]. apply Inv_run, Inv_init. Qed.

(** ** The queue *)

Ltac unfold_callers :=
  unfold start, stop, sendMessage, doReconnect, internalStop,
    join_worker, internalStart, spawn_runIO, handler_startDelayTimer,
    scheduleDelayedStart, doConnectionAttempt, handle_timerMessageQueue,
    read_complete, handler_onread, startAsyncRead, handle_handler_error, log.

Ltac leaf_fifo :=
  let s1 := fresh "s" in
  intros s1; intros; unfold fifo_sum, drop_stream;
  try destruct (ws s1); simpl;
  rewrite ?queue_written_app; simpl; rewrite ?app_nil_r; reflexivity.

Lemma fifo_trySendMessageQueue w : preserves fifo_sum (trySendMessageQueue w).
Proof.
  intros s. unfold trySendMessageQueue, bind, gets, modify, ret. simpl.
  destruct (live s); simpl.
  - unfold fifo_sum. rewrite drain_loop_fifo by reflexivity.
    simpl. rewrite queue_written_app, app_nil_r. reflexivity.
  - unfold fifo_sum. simpl. rewrite queue_written_app, app_nil_r. reflexivity.
Qed.

#[export] Hint Resolve fifo_trySendMessageQueue : pres.

Lemma fifo_start e : preserves fifo_sum (start e).
Proof. unfold_callers. pres_with leaf_fifo. Qed.
Lemma fifo_stop jr : preserves fifo_sum (stop jr).
Proof. unfold_callers. pres_with leaf_fifo. Qed.
Lemma fifo_read_complete ec d : preserves fifo_sum (read_complete ec d).
Proof. unfold_callers. pres_with leaf_fifo. Qed.
Lemma fifo_doReconnect jr e : preserves fifo_sum (doReconnect jr e).
Proof. unfold_callers. pres_with leaf_fifo. Qed.
Lemma fifo_handler_startDelayTimer ec e :
  preserves fifo_sum (handler_startDelayTimer ec e).
Proof. unfold_callers. pres_with leaf_fifo. Qed.
Lemma fifo_handle_timerMessageQueue ec w :
  preserves fifo_sum (handle_timerMessageQueue ec w).
Proof. unfold_callers. pres_with leaf_fifo. Qed.
Lemma fifo_sendMessage_now m w : preserves fifo_sum (sendMessage m false w).
Proof. unfold_callers. pres_with leaf_fifo. Qed.

Lemma fifo_sendMessage_queued m w s :
  fifo_sum (exec (sendMessage m true w) s) = fifo_sum s ++ [m].
Proof.
  unfold sendMessage, exec, bind, modify, ret. simpl.
  rewrite fifo_trySendMessageQueue. unfold fifo_sum. simpl.
  rewrite app_assoc. reflexivity.
Qed.

Lemma fifo_step c s : fifo_sum (step c s) = fifo_sum s ++ enqueued [c].
Proof.
  destruct c; simpl; rewrite ?app_nil_r; unfold exec.
  - apply fifo_start.
  - apply fifo_stop.
  - destruct sendIfOffline.
    + apply fifo_sendMessage_queued.
    + rewrite app_nil_r. apply fifo_sendMessage_now.
  - destruct (_ && _); [apply fifo_read_complete | reflexivity].
  - destruct (_ <? _); [rewrite fifo_doReconnect|]; reflexivity.
  - destruct (expired _ _); [rewrite fifo_handler_startDelayTimer|]; reflexivity.
  - destruct (expired _ _); [rewrite fifo_handle_timerMessageQueue|]; reflexivity.
  - unfold drop_stream. destruct (ws s); reflexivity.
  - reflexivity.
Qed.

Lemma enqueued_app cs1 cs2 : enqueued (cs1 ++ cs2) = enqueued cs1 ++ enqueued cs2.
Proof.
  induction cs1 as [|c cs1 IH]; simpl; [reflexivity|].
  destruct c as [| |? [] ?| | | | | |]; simpl; rewrite IH; reflexivity.
Qed.

Lemma fifo_run cs : forall s, fifo_sum (run cs s) = fifo_sum s ++ enqueued cs.
Proof.
  induction cs as [|c cs IH]; intros s; simpl run.
  - simpl. rewrite app_nil_r. reflexivity.
  - rewrite IH, fifo_step, <- app_assoc.
    change (c :: cs) with ([c] ++ cs). rewrite enqueued_app. reflexivity.
Qed.

(** C1.  Whatever calls, completions, timer expiries and connection
    drops happen, and however the connection attempts and the writes
    turn out, the payloads the drain has written to the connection
    followed by the payloads still in the queue are exactly the
    payloads given to [sendMessage(m, true)], in call order: the
    queued messages go out in the order enqueued, none is skipped,
    lost or written ahead of an earlier one. *)
Theorem queued_messages_leave_in_fifo_order (cs : list call) :
  queue_written (trace (run cs init)) ++ messages (run cs init) = enqueued cs.
Proof. exact (fifo_run cs init). Qed.

(** ** The drain *)

Lemma queue_attempts_app t u :
  queue_attempts (t ++ u) = queue_attempts t ++ queue_attempts u.
Proof.
  induction t as [|o t IH]; simpl; [reflexivity|].
  destruct o as [| | | | | | | |[] ? ? ?| | | |]; simpl; rewrite IH; reflexivity.
Qed.

Lemma drain_loop_unfold m q w s :
  drain_loop (m :: q) w s
  = let s1 := emit (OWrite true m
                      (ws_open (if w_drop (w 0) then drop_stream s else s))
                      (w_ok (w 0)))
                (if w_drop (w 0) then drop_stream s else s) in
    if w_ok (w 0)
    then drain_loop q (wtail w) (set_messages q s1)
    else (tt, set_message_queue_timer (Some (clock s1 + queue_retry_delay)) s1).
Proof.
  simpl. unfold bind, when, gets, modify, ret, armMessageQueueTimer. simpl.
  destruct (w_drop (w 0)), (w_ok (w 0)); reflexivity.
Qed.

Lemma clock_drop_stream s : clock (drop_stream s) = clock s.
Proof. unfold drop_stream. destruct (ws s); reflexivity. Qed.
Lemma trace_drop_stream s : trace (drop_stream s) = trace s.
Proof. unfold drop_stream. destruct (ws s); reflexivity. Qed.
Lemma messages_drop_stream s : messages (drop_stream s) = messages s.
Proof. unfold drop_stream. destruct (ws s); reflexivity. Qed.
Lemma retry_drop_stream s :
  message_queue_timer (drop_stream s) = message_queue_timer s.
Proof. unfold drop_stream. destruct (ws s); reflexivity. Qed.

Ltac drain_case w :=
  let Eok := fresh "Eok" in
  rewrite drain_loop_unfold; cbv zeta; simpl;
  destruct (w_ok (w 0)) eqn:Eok; destruct (w_drop (w 0)); simpl;
  rewrite ?Eok, ?clock_drop_stream, ?trace_drop_stream,
    ?messages_drop_stream, ?retry_drop_stream.

Lemma drain_loop_messages q : forall w s,
  messages s = q ->
  messages (snd (drain_loop q w s)) = skipn (leading_ok w (List.length q)) q.
Proof.
  induction q as [|m q IH]; intros w s Hq; [exact Hq|].
  drain_case w; try (rewrite IH by reflexivity; reflexivity); exact Hq.
Qed.

Lemma drain_loop_queue_attempts q : forall w s,
  queue_attempts (trace (snd (drain_loop q w s)))
  = queue_attempts (trace s)
    ++ map (fun m => (m, true)) (firstn (leading_ok w (List.length q)) q)
    ++ match nth_error q (leading_ok w (List.length q)) with
       | Some m => [(m, false)]
       | None => []
       end.
Proof.
  induction q as [|m q IH]; intros w s.
  - simpl. rewrite app_nil_r. reflexivity.
  - drain_case w; rewrite ?IH; simpl; rewrite ?trace_drop_stream,
      queue_attempts_app; simpl; rewrite <- ?app_assoc; reflexivity.
Qed.

Lemma drain_loop_retry_timer q : forall w s,
  message_queue_timer (snd (drain_loop q w s))
  = if leading_ok w (List.length q) <? List.length q
    then Some (clock s + queue_retry_delay)
    else message_queue_timer s.
Proof.
  induction q as [|m q IH]; intros w s; [reflexivity|].
  drain_case w; rewrite ?IH; simpl;
    rewrite ?clock_drop_stream, ?retry_drop_stream; reflexivity.
Qed.

Lemma not_live_drain w s :
  live s = false -> exec (trySendMessageQueue w) s = emit (OLiveCheck false) s.
Proof.
  intros H. unfold trySendMessageQueue, exec, bind, gets, modify, ret.
  simpl. rewrite H. reflexivity.
Qed.

Lemma leading_ok_all w n :
  (forall i, w_ok (w i) = true) -> leading_ok w n = n.
Proof.
  revert w. induction n as [|n IH]; intros w H; simpl; [reflexivity|].
  rewrite H, IH; [reflexivity|]. intros i. apply H.
Qed.

(** C4.  The drain runs at the end of a successful connection attempt,
    in every [sendMessage(m, true)] after the push, and when the retry
    timer expires (which consumes the timer).  Behind its entry guard
    (otherwise it only makes the check), with queue [q], where [k]
    writes succeed before one throws: it attempts the
    first [k] messages successfully and pops each, then, if a message
    is left, attempts that one, fails, leaves it and everything behind
    it in the queue and arms the retry timer one second ahead;
    otherwise the queue is empty and the timer is as it was. *)
Theorem drain_pops_until_first_failed_write :
  (forall e s, outcome e = connected ->
     exists s1, doConnectionAttempt e s
                = (true, exec (trySendMessageQueue (drain_env e)) s1)
                /\ live s1 = shouldBeActive s /\ messages s1 = messages s) /\
  (forall m w s,
     sendMessage m true w s
     = (true, exec (trySendMessageQueue w)
                (set_messages (messages s ++ [m]) s))) /\
  (forall w s t,
     message_queue_timer s = Some t -> io_running s = true -> t <= clock s ->
     step (QueueRetryFires w) s
     = exec (trySendMessageQueue w) (set_message_queue_timer None s)) /\
  (forall w s,
     let q := messages s in
     let k := leading_ok w (List.length q) in
     let s' := exec (trySendMessageQueue w) s in
     if live s
     then
       queue_attempts (trace s')
       = queue_attempts (trace s)
         ++ map (fun m => (m, true)) (firstn k q)
         ++ match nth_error q k with Some m => [(m, false)] | None => [] end
       /\ messages s' = skipn k q
       /\ hd_error (messages s') = nth_error q k
       /\ message_queue_timer s'
          = if k <? List.length q
            then Some (clock s + queue_retry_delay)
            else message_queue_timer s
     else s' = emit (OLiveCheck false) s).
Proof.
  split; [|split; [|split]].
  - intros e s He. unfold doConnectionAttempt. rewrite He.
    eexists. unfold exec, bind, modify, ret, log, startAsyncRead. simpl.
    split; [reflexivity|]. unfold live. simpl. rewrite andb_true_r. auto.
  - intros m w s. reflexivity.
  - intros w s t Ht Hio Hle. simpl. unfold expired. rewrite Ht, Hio. simpl.
    apply Nat.leb_le in Hle. rewrite Hle. reflexivity.
  - intros w s q k s'. destruct (live s) eqn:Hl;
      [|apply not_live_drain; exact Hl].
    assert (Es : s' = snd (drain_loop q w (emit (OLiveCheck true) s))).
    { unfold s', exec, trySendMessageQueue, bind, gets, modify, ret. simpl.
      rewrite Hl. reflexivity. }
    rewrite Es. rewrite drain_loop_queue_attempts, drain_loop_retry_timer,
      drain_loop_messages by reflexivity.
    simpl. rewrite queue_attempts_app, app_nil_r.
    repeat split; try reflexivity.
    subst k. generalize (leading_ok w (List.length q)). generalize q.
    clear. intros q. induction q as [|m q IH]; intros [|k]; simpl; auto.
Qed.

Lemma drain_pops_until_first_failed_write_witness :
  let w : wstream :=
    fun i => match i with 0 => mkWenv false true | _ => mkWenv false false end in
  let s := run [SendMessage "a" true all_ok; SendMessage "b" true all_ok;
                SendMessage "c" true all_ok;
                Start (mkConn connected all_fail)] init in
  (exists s1,
     doConnectionAttempt (mkConn connected w) s
     = (true, exec (trySendMessageQueue (drain_env (mkConn connected w))) s1)
     /\ live s1 = shouldBeActive s /\ messages s1 = messages s)
  /\ step (QueueRetryFires w) (set_clock 1 s)
     = exec (trySendMessageQueue w)
         (set_message_queue_timer None (set_clock 1 s))
  /\ (let q := messages s in
      let k := leading_ok w (List.length q) in
      let s' := exec (trySendMessageQueue w) s in
      queue_attempts (trace s')
      = queue_attempts (trace s)
        ++ map (fun m => (m, true)) (firstn k q)
        ++ match nth_error q k with Some m => [(m, false)] | None => [] end
      /\ messages s' = skipn k q
      /\ hd_error (messages s') = nth_error q k
      /\ message_queue_timer s'
         = if k <? List.length q
           then Some (clock s + queue_retry_delay)
           else message_queue_timer s)
  /\ messages (exec (trySendMessageQueue w) s) = ["b"; "c"].
Proof.
  intros w s. split; [|split; [|split]].
  - apply (proj1 drain_pops_until_first_failed_write). reflexivity.
  - apply (proj1 (proj2 (proj2 drain_pops_until_first_failed_write)) w
             (set_clock 1 s) 1).
    + reflexivity.
    + reflexivity.
    + apply le_n.
  - exact (proj2 (proj2 (proj2 drain_pops_until_first_failed_write)) w s).
  - vm_compute. reflexivity.
Defined.

Lemma drain_loop_trace q : forall w s,
  exists evs,
    trace (snd (drain_loop q w s)) = trace s ++ evs /\
    Forall (fun o => is_queue_write o = true) evs /\
    ((forall i, w_drop (w i) = false) -> ws_open s = true ->
     Forall (fun o => is_blind_write o = false) evs).
Proof.
  induction q as [|m q IH]; intros w s.
  - exists []. simpl. rewrite app_nil_r. auto.
  - rewrite drain_loop_unfold. cbv zeta.
    set (s0 := if w_drop (w 0) then drop_stream s else s).
    assert (Et : trace s0 = trace s)
      by (unfold s0; destruct (w_drop (w 0)); auto using trace_drop_stream).
    destruct (w_ok (w 0)) eqn:Eok.
    + destruct (IH (wtail w)
                  (set_messages q (emit (OWrite true m (ws_open s0) true) s0)))
        as (evs & E1 & E2 & E3).
      exists (OWrite true m (ws_open s0) true :: evs). rewrite E1. simpl.
      rewrite Et, <- app_assoc. repeat split; auto.
      intros Hd Ho. unfold s0 in *. rewrite Hd in *.
      constructor; [simpl; rewrite Ho; reflexivity|].
      apply E3; [intros i; apply Hd | exact Ho].
    + exists [OWrite true m (ws_open s0) false]. simpl. rewrite Et.
      repeat split; auto.
      intros Hd Ho. unfold s0. rewrite Hd, Ho. auto.
Qed.

(** C5, as the code has it.  One drain makes exactly one liveness
    check, on entry and before any write.  When the check fails
    nothing else happens.  When it passes, the loop makes its write
    attempts one after the other with no further check; DesiredState
    is true and the handle exists throughout, but only as long as the
    worker thread does not see the connection go down in the meantime
    is every write made on an open stream. *)
Theorem drain_checks_liveness_once_on_entry (w : wstream) (s : State) :
  let s' := exec (trySendMessageQueue w) s in
  count is_live_check (trace s') = S (count is_live_check (trace s)) /\
  exists evs,
    trace s' = trace s ++ OLiveCheck (live s) :: evs /\
    Forall (fun o => is_queue_write o = true) evs /\
    if live s
    then shouldBeActive s' = true /\ ws_present s' = true /\
         ((forall i, w_drop (w i) = false) ->
          Forall (fun o => is_blind_write o = false) evs)
    else evs = [] /\ s' = emit (OLiveCheck false) s.
Proof.
  intros s'. split.
  { unfold s', exec, trySendMessageQueue, bind, gets, modify, ret. simpl.
    destruct (live s); simpl.
    - rewrite drain_count by reflexivity. simpl. rewrite count_snoc. simpl. lia.
    - rewrite count_snoc. simpl. lia. } unfold s', exec, trySendMessageQueue, bind, gets, modify, ret.
  simpl. destruct (live s) eqn:El; simpl.
  - destruct (drain_loop_trace (messages s) w (emit (OLiveCheck true) s))
      as (evs & E1 & E2 & E3).
    exists evs. rewrite E1. simpl. rewrite <- app_assoc. simpl.
    apply andb_prop in El as [Ea Eo].
    repeat split; auto.
    + rewrite drain_shouldBeActive. exact Ea.
    + rewrite drain_ws_present. unfold ws_open, ws_present in *. simpl.
      destruct (ws s); [reflexivity | discriminate].
  - exists []. repeat split; auto.
Qed.

Lemma drain_checks_liveness_once_on_entry_witness :
  let s := run [SendMessage "a" true all_ok; SendMessage "b" true all_ok;
                Start (mkConn connected all_fail)] init in
  let s' := exec (trySendMessageQueue all_ok) s in
  exists evs,
    trace s' = trace s ++ OLiveCheck (live s) :: evs /\
    Forall (fun o => is_queue_write o = true) evs /\
    (shouldBeActive s' = true /\ ws_present s' = true) /\
    Forall (fun o => is_blind_write o = false) evs.
Proof.
  intros s s'.
  destruct (drain_checks_liveness_once_on_entry all_ok s)
    as (_ & evs & E1 & E2 & E3).
  exists evs. split; [exact E1|]. split; [exact E2|].
  change (live s) with true in E3. destruct E3 as (E3 & E4 & E5).
  split; [split; assumption|].
  apply E5. intros i. reflexivity.
Defined.

(** C5, the claim as written fails.  Two messages are queued, the
    connection comes up, the first write succeeds, the worker thread
    then sees the connection go down, and the loop still attempts the
    second write: no check stands between the two writes, and the
    second goes to a stream that is no longer open. *)
Lemma second_write_of_drain_is_unchecked :
  let w : wstream :=
    fun i => match i with 0 => mkWenv false true | _ => mkWenv true false end in
  let s := run [SendMessage "a" true all_ok; SendMessage "b" true all_ok;
                Start (mkConn connected w)] init in
  skipn 9 (trace s)
  = [OLiveCheck true; OWrite true "a" true true; OWrite true "b" false false]
  /\ checked_before_each_write (trace s) = false
  /\ existsb is_blind_write (trace s) = true.
Proof. vm_compute. auto. Qed.

(** ** The read handler *)


(** ** The immediate send *)

(** C8.  [sendMessage(payload, false)] answers [true] exactly when a
    handle exists and its one write does not throw; it makes that one
    write when a handle exists and none otherwise; the queue is the
    same afterwards, and so is everything else but the trace. *)
Theorem immediate_send_never_queues (msg : string) (w : wstream) (s : State) :
  let r := sendMessage msg false w s in
  fst r = ws_present s && w_ok (w 0)
  /\ messages (snd r) = messages s
  /\ fifo_sum (snd r) = fifo_sum s
  /\ snd r = (if ws_present s
              then emit (OWrite false msg (ws_open s) (w_ok (w 0))) s
              else s).
Proof.
  unfold sendMessage, bind, gets, modify, ret. simpl.
  destruct (ws_present s); simpl; repeat split.
  unfold fifo_sum. simpl. rewrite queue_written_app, app_nil_r. reflexivity.
Qed.

(** ** Connection attempts *)

Lemma drain_loop_ws q : forall w s,
  (forall i, w_drop (w i) = false) -> ws (snd (drain_loop q w s)) = ws s.
Proof.
  induction q as [|m q IH]; intros w s Hd; [reflexivity|].
  rewrite drain_loop_unfold. cbv zeta. rewrite Hd.
  destruct (w_ok (w 0)); [rewrite IH|]; auto. intros i. apply Hd.
Qed.

(** What one attempt, with the retry scheduled on failure, does. *)
Lemma attempt_then_retry_spec e s :
  let s' := exec (attempt_then_retry e) s in
  attempts s' = S (attempts s)
  /\ spawned s' = spawned s /\ joined s' = joined s
  /\ shouldBeActive s' = shouldBeActive s /\ worker s' = worker s
  /\ clock s' = clock s /\ reconnects s' = reconnects s
  /\ match outcome e with
     | connected =>
         start_delay_timer s' = start_delay_timer s
         /\ ws_present s' = true /\ reads s' = S (reads s)
         /\ ((forall i, w_drop (drain_env e i) = false) ->
             ws s' = Some (mkStream true))
     | o =>
         start_delay_timer s' = Some (clock s + start_delay)
         /\ reads s' = reads s
         /\ ws s' = match o with
                    | resolve_fails => ws s
                    | _ => Some (mkStream false)
                    end
     end.
Proof.
  intros s'. subst s'.
  destruct (outcome e) eqn:Eo.
  4: {
    rewrite attempt_connected_eq by exact Eo.
    unfold trySendMessageQueue, exec, bind, gets, modify, ret. simpl.
    destruct (live _); simpl.
    - crunch. repeat split; try lia.
      intros Hd. rewrite drain_loop_ws by exact Hd. reflexivity.
    - crunch. repeat split; lia.
  }
  all: rewrite attempt_failed_eq by congruence; rewrite Eo;
    crunch; repeat split; lia.
Qed.

Lemma step_Start e s :
  step (Start e) s
  = if shouldBeActive s then s
    else exec (internalStart e) (set_shouldBeActive true s).
Proof.
  simpl. unfold start, exec, bind, gets, modify. simpl.
  destruct (shouldBeActive s); reflexivity.
Qed.

Lemma step_Stop jr s :
  step (Stop jr) s
  = if shouldBeActive s
    then emit (OLog "CO: Stopped!")
           (exec (internalStop jr) (set_shouldBeActive false s))
    else s.
Proof.
  simpl. unfold stop, exec, bind, gets, modify, log. simpl.
  destruct (shouldBeActive s); reflexivity.
Qed.

Lemma step_ReconnectRuns jr e s :
  step (ReconnectRuns jr e) s
  = if 0 <? reconnects s
    then if shouldBeActive s
         then exec (internalStart e)
                (exec (internalStop jr) (set_reconnects (pred (reconnects s)) s))
         else set_reconnects (pred (reconnects s)) s
    else s.
Proof.
  simpl. unfold doReconnect, exec, bind, gets. simpl.
  destruct (0 <? reconnects s), (shouldBeActive s); reflexivity.
Qed.

Lemma step_StartDelayFires e s :
  step (StartDelayFires e) s
  = if expired (start_delay_timer s) s
    then if shouldBeActive s
         then exec (attempt_then_retry e) (set_start_delay_timer None s)
         else set_start_delay_timer None s
    else s.
Proof.
  simpl. unfold handler_startDelayTimer, attempt_then_retry, exec, bind, gets,
    ret. simpl.
  destruct (expired _ s), (shouldBeActive s); reflexivity.
Qed.

(** Calls that make no connection attempt. *)
Lemma attempts_other_step c s :
  attempt_env c = None -> is_Stop c = false -> attempts (step c s) = attempts s.
Proof.
  intros Hc Hs. destruct c; try discriminate; simpl.
  - unfold sendMessage, trySendMessageQueue, exec, bind, gets, modify, ret.
    destruct sendIfOffline; simpl.
    + destruct (live _); crunch; lia.
    + destruct (ws_present s); crunch; lia.
  - destruct (_ && _); [|reflexivity].
    unfold_cmd. destruct ec; crunch; lia.
  - destruct (expired _ _); [|reflexivity].
    unfold handle_timerMessageQueue, trySendMessageQueue, exec, bind, gets,
      modify, ret. simpl. destruct (live _); crunch; lia.
  - unfold drop_stream. destruct (ws s); reflexivity.
  - reflexivity.
Qed.

(** Every attempt is made through [attempt_then_retry], from a state
    that is ready for it. *)
Lemma attempt_step c s :
  Inv s -> attempts (step c s) <> attempts s ->
  exists e s1,
    attempt_env c = Some e /\ Ready s1 /\
    step c s = exec (attempt_then_retry e) s1 /\
    clock s1 = clock s /\ attempts s1 = attempts s /\
    ws_present s1 = ws_present s /\
    (is_Start c = true -> shouldBeActive s = false /\ spawned s1 = S (spawned s)).
Proof.
  intros I Hne. pose proof I as [Hw Hk Hi Hidle Hd Hr Ht].
  destruct c;
    try (exfalso; apply Hne; apply attempts_other_step; reflexivity).
  - (* start *)
    rewrite step_Start in *.
    destruct (shouldBeActive s) eqn:Ea; [congruence|].
    clear Hne.
    destruct (Hidle eq_refl) as (H1 & H2 & H3 & H4).
    rewrite internalStart_idle by (simpl; congruence).
    eexists _, _. split; [reflexivity|]. split; [|split; [reflexivity|]].
    + split; crunch; auto; try lia. rewrite Ht, Hw. lia.
    + crunch. repeat split; auto; lia.
  - (* stop *)
    exfalso. apply Hne. rewrite step_Stop.
    destruct (shouldBeActive s) eqn:Ea; [|reflexivity].
    destruct (internalStop_Stopped jr (set_shouldBeActive false s))
      as [_ _ _ _ _ _ _ _ _ _ _ _ _ S14 _]; simpl; auto.
    unfold attempts in *. simpl. rewrite count_snoc, S14. simpl. lia.
  - (* a detached reconnect runs *)
    rewrite step_ReconnectRuns in *.
    destruct (0 <? reconnects s); [|congruence].
    destruct (shouldBeActive s) eqn:Ea; [|unfold attempts in Hne; simpl in Hne; congruence].
    clear Hne.
    set (s0 := set_reconnects _ s) in *.
    destruct (internalStop_Stopped jr s0)
      as [S1 S2 S3 S4 S5 S6 S7 S8 S9 S10 S11 S12 S13 S14 S15];
      simpl; try congruence.
    rewrite internalStart_idle by assumption.
    eexists _, _. split; [reflexivity|]. split; [|split; [reflexivity|]].
    + split; crunch; rewrite ?S1, ?S8, ?S10, ?S12, ?S13; auto.
      subst s0. simpl. rewrite Ht, Hw. lia.
    + crunch. unfold attempts, ws_present in *. rewrite S3, S4, S14.
      subst s0. simpl. repeat split; try lia; discriminate.
  - (* the start delay expires *)
    rewrite step_StartDelayFires in *.
    destruct (expired _ s) eqn:Ex; [|congruence].
    destruct (shouldBeActive s) eqn:Ea; [|unfold attempts in Hne; simpl in Hne; congruence].
    destruct (start_delay_timer s) as [t|] eqn:Et; [|discriminate].
    destruct Hd as [Ho Hrd]; [congruence|].
    eexists _, _. split; [reflexivity|]. split; [|split; [reflexivity|]].
    + split; crunch; auto; try congruence. rewrite Ht, Hw. reflexivity.
    + simpl. repeat split; auto; discriminate.
Qed.

(** ** Worker threads *)

(** C9.  In every reachable state the worker threads created and not
    yet joined are one if [worker] has a value and none otherwise.  A
    [start()] while DesiredState is true changes nothing.  So two
    [start()] calls in a row, made while DesiredState is false, create
    exactly one worker thread, join none, and make exactly one
    connection attempt; and after any run that ends with a [start()]
    exactly one worker thread is alive and a further [start()] changes
    nothing. *)
Theorem at_most_one_worker_thread :
  (forall cs,
     let s := run cs init in
     spawned s = joined s + (if worker s then 1 else 0)) /\
  (forall e s, shouldBeActive s = true -> step (Start e) s = s) /\
  (forall cs e1 e2,
     let s := run cs init in
     let s2 := run [Start e1; Start e2] s in
     shouldBeActive s = false ->
     spawned s2 = S (spawned s) /\ joined s2 = joined s /\
     spawned s2 = S (joined s2) /\
     attempts s2 = S (attempts s) /\ worker s2 = true) /\
  (forall cs e1 e2,
     let s1 := run (cs ++ [Start e1]) init in
     step (Start e2) s1 = s1 /\ spawned s1 = S (joined s1)).
Proof.
  split; [|split; [|split]].
  - intros cs s. apply Inv_reachable. exists cs. reflexivity.
  - intros e s Ea. rewrite step_Start, Ea. reflexivity.
  - intros cs e1 e2 s s2 Ea.
    assert (I : Inv s) by (apply Inv_reachable; exists cs; reflexivity).
    pose proof I as [Hw Hk Hi Hidle Hd Hr Ht].
    unfold s2.
    change (run [Start e1; Start e2] s)
      with (step (Start e2) (step (Start e1) s)).
    rewrite (step_Start e1 s), Ea.
    rewrite internalStart_idle by (simpl; congruence).
    match goal with |- context [exec (attempt_then_retry e1) ?x] =>
      destruct (attempt_then_retry_spec e1 x)
        as (A1 & A2 & A3 & A4 & A5 & _); set (s1 := exec _ x) in *
    end.
    rewrite step_Start. simpl in A4. rewrite A4.
    unfold spawned, joined, attempts in *. simpl in *.
    rewrite !count_snoc in *. simpl in *.
    rewrite Hw, Ea in Ht. repeat split; try lia. exact A5.
  - intros cs e1 e2 s1.
    assert (I : Inv s1) by (apply Inv_reachable; eexists; reflexivity).
    assert (Ea : shouldBeActive s1 = true).
    { unfold s1. rewrite run_app.
      change (run [Start e1] (run cs init))
        with (step (Start e1) (run cs init)).
      set (s := run cs init).
      assert (Is : Inv s) by (apply Inv_reachable; eexists; reflexivity).
      rewrite step_Start. destruct (shouldBeActive s) eqn:E; [exact E|].
      destruct Is as [Hw _ Hi _ _ _ _].
      rewrite internalStart_idle by (simpl; congruence).
      match goal with |- context [exec (attempt_then_retry e1) ?x] =>
        destruct (attempt_then_retry_spec e1 x) as (_ & _ & _ & A4 & _)
      end.
      exact A4. }
    destruct I as [Hw _ _ _ _ _ Ht].
    rewrite step_Start, Ea. split; [reflexivity|].
    rewrite Ht, Hw, Ea. lia.
Qed.

Lemma at_most_one_worker_thread_witness :
  step (Start (mkConn connected all_ok))
    (step (Start (mkConn resolve_fails all_ok)) init)
  = step (Start (mkConn resolve_fails all_ok)) init
  /\ let s2 := run [Start (mkConn resolve_fails all_ok);
                    Start (mkConn connected all_ok)] (run [] init) in
     spawned s2 = S (spawned (run [] init)) /\ joined s2 = joined (run [] init) /\
     spawned s2 = S (joined s2) /\
     attempts s2 = S (attempts (run [] init)) /\ worker s2 = true.
Proof.
  split.
  - apply (proj1 (proj2 at_most_one_worker_thread)). reflexivity.
  - apply (proj1 (proj2 (proj2 at_most_one_worker_thread)) []). reflexivity.
Defined.

(** ** Stopping *)

Lemma shouldBeActive_internalStop jr : preserves shouldBeActive (internalStop jr).
Proof. unfold_members. pres_with leaf_refl. Qed.

Lemma messages_stop jr : preserves messages (stop jr).
Proof. unfold_members. pres_with leaf_refl. Qed.

Lemma stop_inactive jr s : shouldBeActive (step (Stop jr) s) = false.
Proof.
  rewrite step_Stop. destruct (shouldBeActive s) eqn:Ea; [|exact Ea].
  simpl. unfold exec. rewrite shouldBeActive_internalStop. reflexivity.
Qed.





(** C10.  [stop()] leaves the queue as it is.  Over a [stop()]
    followed by a [start()], what the drain has written followed by
    what is queued is the same sequence before and after; and when
    that [start()] connects and no write throws, the queue is empty
    afterwards and everything that was queued has been written, in
    order, after what had been written before. *)
Theorem stop_keeps_the_queue :
  (forall jr s, messages (exec (stop jr) s) = messages s) /\
  (forall jr e s,
     fifo_sum (exec (start e) (exec (stop jr) s)) = fifo_sum s) /\
  (forall jr e s,
     outcome e = connected -> (forall i, w_ok (drain_env e i) = true) ->
     let s' := exec (start e) (exec (stop jr) s) in
     messages s' = [] /\
     queue_written (trace s') = queue_written (trace s) ++ messages s).
Proof.
  split; [|split].
  - intros jr s. apply messages_stop.
  - intros jr e s. unfold exec. rewrite fifo_start, fifo_stop. reflexivity.
  - intros jr e s Ho Hok s'.
    assert (Em : messages s' = []).
    { unfold s'. change (exec (stop jr) s) with (step (Stop jr) s).
      set (s0 := step (Stop jr) s).
      change (exec (start e) s0) with (step (Start e) s0).
      rewrite step_Start. unfold s0 at 1. rewrite stop_inactive.
      assert (E : exists s1,
                 exec (internalStart e) (set_shouldBeActive true s0)
                 = exec (attempt_then_retry e) s1 /\ shouldBeActive s1 = true).
      { unfold internalStart, attempt_then_retry, spawn_runIO, log, exec,
          bind, when, gets, modify, ret. simpl.
        destruct (worker s0); simpl; [eexists; split; reflexivity|].
        destruct (ioc_stopped s0); simpl; eexists; split; reflexivity. }
      destruct E as (s1 & -> & Ea).
      rewrite attempt_connected_eq by exact Ho.
      unfold trySendMessageQueue, exec, bind, gets, modify, ret, live.
      simpl. rewrite Ea. simpl.
      rewrite drain_loop_messages by reflexivity.
      rewrite leading_ok_all by exact Hok. apply skipn_all. }
    split; [exact Em|].
    assert (F : fifo_sum s' = fifo_sum s)
      by (unfold s', exec; rewrite fifo_start, fifo_stop; reflexivity).
    unfold fifo_sum in F. rewrite Em, app_nil_r in F. exact F.
Qed.

Lemma stop_keeps_the_queue_witness :
  let s := run [SendMessage "a" true all_ok; SendMessage "b" true all_ok;
                Start (mkConn resolve_fails all_ok)] init in
  let s' := exec (start (mkConn connected all_ok)) (exec (stop []) s) in
  messages s' = [] /\
  queue_written (trace s') = queue_written (trace s) ++ messages s.
Proof.
  apply (proj2 (proj2 stop_keeps_the_queue) [] (mkConn connected all_ok)).
  - reflexivity.
  - intros i. reflexivity.
Defined.

(** ** The handle and the start-delay timer *)

(** What the call that made an attempt leaves behind. *)
Lemma after_attempt c s :
  Inv s -> attempts (step c s) <> attempts s ->
  exists e,
    attempt_env c = Some e /\
    attempts (step c s) = S (attempts s) /\
    shouldBeActive (step c s) = true /\
    clock (step c s) = clock s /\
    match outcome e with
    | connected =>
        start_delay_timer (step c s) = None /\
        ws_present (step c s) = true /\ reads (step c s) = 1 /\
        ((forall i, w_drop (drain_env e i) = false) ->
         ws (step c s) = Some (mkStream true))
    | o =>
        start_delay_timer (step c s) = Some (clock s + start_delay) /\
        ws_open (step c s) = false /\ reads (step c s) = 0 /\
        match o with
        | resolve_fails => ws_present (step c s) = ws_present s
        | _ => ws (step c s) = Some (mkStream false)
        end
    end.
Proof.
  intros I Hne.
  destruct (attempt_step c s I Hne)
    as (e & s1 & Hc & [Ra Rw Rk Ri Rd Rr Ro Rt] & -> & Hclk & Hat & Hp & _).
  exists e. split; [exact Hc|].
  destruct (attempt_then_retry_spec e s1)
    as (A1 & A2 & A3 & A4 & A5 & A6 & A7 & A8).
  simpl in *.
  repeat match goal with |- _ /\ _ => split end; try congruence.
  destruct (outcome e).
  - destruct A8 as (B1 & B2 & B3).
    repeat match goal with |- _ /\ _ => split end; try congruence.
    + unfold ws_open in *. rewrite B3. exact Ro.
    + unfold ws_present in *. rewrite B3. exact Hp.
  - destruct A8 as (B1 & B2 & B3).
    repeat match goal with |- _ /\ _ => split end; try congruence.
    unfold ws_open. rewrite B3. reflexivity.
  - destruct A8 as (B1 & B2 & B3).
    repeat match goal with |- _ /\ _ => split end; try congruence.
    unfold ws_open. rewrite B3. reflexivity.
  - destruct A8 as (B1 & B2 & B3 & B4).
    repeat match goal with |- _ /\ _ => split end; try congruence.
    exact B4.
Qed.

Ltac leaf_footing :=
  let s1 := fresh "s" in
  let E := fresh "E" in
  intros s1; intros; unfold footing, drop_stream, ws_present;
  destruct (ws s1) eqn:E; simpl; rewrite ?E; reflexivity.

Lemma footing_sendMessage m b w : preserves footing (sendMessage m b w).
Proof. unfold_members. pres_with leaf_footing. Qed.
Lemma footing_read_complete ec d : preserves footing (read_complete ec d).
Proof. unfold_members. pres_with leaf_footing. Qed.
Lemma footing_handle_timerMessageQueue ec w :
  preserves footing (handle_timerMessageQueue ec w).
Proof. unfold_members. pres_with leaf_footing. Qed.




(** ** How the last attempt ended *)















(** ** Retrying after a failed attempt *)

(** While DesiredState is false only [start()] changes that, and
    nothing else makes a connection attempt. *)
Lemma idle_step c s :
  shouldBeActive s = false -> is_Start c = false ->
  shouldBeActive (step c s) = false /\ attempts (step c s) = attempts s.
Proof.
  intros Ea Hc.
  assert (Hl : forall s1, shouldBeActive s1 = false -> live s1 = false)
    by (intros s1 H; unfold live; rewrite H; reflexivity).
  destruct c; try discriminate.
  - rewrite step_Stop, Ea. auto.
  - simpl. unfold sendMessage, exec, bind, gets, modify, ret.
    destruct sendIfOffline; simpl.
    + change (snd (trySendMessageQueue w ?x))
        with (exec (trySendMessageQueue w) x).
      rewrite not_live_drain by (apply Hl; exact Ea).
      unfold attempts. simpl. rewrite count_snoc. simpl. split; [auto | lia].
    + destruct (ws_present s); simpl; [|auto].
      unfold attempts. simpl. rewrite count_snoc. simpl. split; [auto | lia].
  - simpl. destruct (_ && _); [|auto].
    unfold_cmd. destruct ec; crunch; split; auto; lia.
  - rewrite step_ReconnectRuns, Ea. destruct (0 <? reconnects s); auto.
  - rewrite step_StartDelayFires, Ea. destruct (expired _ s); auto.
  - simpl. destruct (expired _ s); [|auto].
    unfold handle_timerMessageQueue. simpl.
    rewrite not_live_drain by (apply Hl; exact Ea).
    unfold attempts. simpl. rewrite count_snoc. simpl. split; [auto | lia].
  - simpl. unfold drop_stream. destruct (ws s); auto.
  - simpl. auto.
Qed.

Lemma idle_run cs : forall s,
  shouldBeActive s = false -> forallb (fun c => negb (is_Start c)) cs = true ->
  shouldBeActive (run cs s) = false /\ attempts (run cs s) = attempts s.
Proof.
  induction cs as [|c cs IH]; intros s Ea Hcs; simpl in *; [auto|].
  apply andb_prop in Hcs as [Hc Hcs]. apply negb_true_iff in Hc.
  destruct (idle_step c s Ea Hc) as [E1 E2].
  destruct (IH (step c s) E1 Hcs) as [E3 E4]. split; congruence.
Qed.

Lemma waiting_step t c s :
  Waiting t s -> is_Stop c = false -> clock s < t ->
  Waiting t (step c s) /\ attempts (step c s) = attempts s.
Proof.
  intros [I Ea Et En] Hc Hlt.
  pose proof (Inv_step c s I) as IS.
  pose proof I as [Hw Hk Hi Hidle Hd Hr Ht].
  destruct Hd as [Ho Hrd]; [congruence|].
  assert (Hl : live s = false) by (unfold live; rewrite Ho, andb_false_r; auto).
  assert (D : forall w s1, live s1 = false ->
                snd (trySendMessageQueue w s1) = emit (OLiveCheck false) s1)
    by (intros; apply not_live_drain; assumption).
  assert (E : step c s = s \/
              (exists o, is_resolve o = false /\
                 (step c s = emit o s \/
                  step c s = emit o (set_message_queue_timer None s) \/
                  exists q, step c s = emit o (set_messages q s))) \/
              step c s = drop_stream s \/
              step c s = set_clock (S (clock s)) s \/
              step c s = set_message_queue_timer None s).
  { destruct c; try discriminate.
    - left. rewrite step_Start, Ea. reflexivity.
    - simpl. unfold sendMessage, exec, bind, gets, modify, ret.
      destruct sendIfOffline; simpl.
      + rewrite D by exact Hl. right; left. eexists. split; [|eauto].
        reflexivity.
      + destruct (ws_present s); simpl; [|auto].
        right; left. eexists. split; [|eauto]. reflexivity.
    - left. simpl. rewrite Hrd, andb_false_r. reflexivity.
    - left. rewrite step_ReconnectRuns, En. reflexivity.
    - left. rewrite step_StartDelayFires, Et. simpl.
      apply Nat.leb_gt in Hlt. rewrite Hlt, andb_false_r. reflexivity.
    - simpl. destruct (expired _ s); [|auto].
      unfold handle_timerMessageQueue, exec. simpl.
      rewrite D by exact Hl. right; left. eexists. split; [|eauto].
      reflexivity.
    - auto.
    - auto 6. }
  clear D.
  destruct E as [E|[(o & Hr' & [E|[E|(q & E)]])|[E|[E|E]]]];
    rewrite E in *; clear E;
    unfold attempts, drop_stream in *; try destruct (ws s);
    simpl; rewrite ?count_snoc, ?Hr';
    (split; [split; simpl; auto | lia]).
Qed.

Lemma waiting_run t cs : forall s,
  Waiting t s -> forallb (fun c => negb (is_Stop c)) cs = true ->
  clock (run cs s) < t ->
  attempts (run cs s) = attempts s.
Proof.
  induction cs as [|c cs IH]; intros s W Hcs Hlt; simpl in *; [auto|].
  apply andb_prop in Hcs as [Hc Hcs]. apply negb_true_iff in Hc.
  pose proof (clock_run cs (step c s)). pose proof (clock_step c s).
  destruct (waiting_step t c s W Hc) as [W1 E1]; [lia|].
  rewrite IH; auto.
Qed.

(** C7, as the code has it.  A call that makes a failing attempt
    leaves DesiredState true and the start-delay timer armed ten
    seconds ahead.  From a state where DesiredState is true, that
    timer is pending and no detached reconnect is waiting for the
    lock, no call other than [stop()] makes a connection attempt as
    long as the clock is short of the expiry.  Once DesiredState is
    false, which every [stop()] ensures together with the cancelled
    timer, nothing but a [start()] makes an attempt: the timer handler
    returns without one, whatever its error code, and so does a
    detached reconnect. *)
Theorem retry_waits_for_the_start_delay :
  (forall cs c e,
     let s := run cs init in
     let s' := step c s in
     attempt_env c = Some e -> attempts s' <> attempts s ->
     outcome e <> connected ->
     shouldBeActive s' = true /\
     start_delay_timer s' = Some (clock s' + start_delay)) /\
  (forall cs t cs',
     let s := run cs init in
     shouldBeActive s = true -> start_delay_timer s = Some t ->
     reconnects s = 0 ->
     forallb (fun c => negb (is_Stop c)) cs' = true ->
     clock (run cs' s) < t ->
     attempts (run cs' s) = attempts s) /\
  (forall cs jr cs',
     let s0 := run (cs ++ [Stop jr]) init in
     forallb (fun c => negb (is_Start c)) cs' = true ->
     shouldBeActive s0 = false /\
     start_delay_timer s0 = None /\
     attempts (run cs' s0) = attempts s0) /\
  (forall ec e s,
     shouldBeActive s = false -> exec (handler_startDelayTimer ec e) s = s).
Proof.
  split; [|split; [|split]].
  - intros cs c e s s' Hc Hne Ho.
    assert (I : Inv s) by (apply Inv_reachable; eexists; reflexivity).
    destruct (after_attempt c s I Hne) as (e' & Hc' & _ & Ha & Hk & H).
    assert (e' = e) by congruence. subst e'. fold s' in Ha, Hk, H.
    split; [exact Ha|]. rewrite Hk.
    destruct (outcome e); try tauto.
  - intros cs t cs' s Ea Et En Hcs Hlt.
    apply (waiting_run t); auto.
    split; auto. apply Inv_reachable. eexists; reflexivity.
  - intros cs jr cs' s0 Hcs.
    assert (Ea : shouldBeActive s0 = false)
      by (unfold s0; rewrite run_app; apply stop_inactive).
    split; [exact Ea|]. split.
    + assert (I : Inv s0) by (apply Inv_reachable; eexists; reflexivity).
      destruct I as [_ _ _ Hidle _ _ _]. apply Hidle, Ea.
    + apply idle_run; assumption.
  - intros ec e s Ea. unfold handler_startDelayTimer, exec, bind, gets, ret.
    destruct ec; simpl; rewrite ?Ea; reflexivity.
Qed.

Lemma retry_waits_for_the_start_delay_witness :
  (let s := run [] init in
   let s' := step (Start (mkConn handshake_fails all_ok)) s in
   shouldBeActive s' = true /\
   start_delay_timer s' = Some (clock s' + start_delay))
  /\ (let s := run [Start (mkConn handshake_fails all_ok)] init in
      attempts
        (run [Tick; SendMessage "a" true all_ok; Tick;
              StartDelayFires (mkConn connected all_ok);
              Start (mkConn connected all_ok); Tick] s)
      = attempts s)
  /\ (let s0 := run ([Start (mkConn handshake_fails all_ok)] ++ [Stop []])
                  init in
      shouldBeActive s0 = false /\
      start_delay_timer s0 = None /\
      attempts
        (run [Tick; StartDelayFires (mkConn connected all_ok);
              ReconnectRuns [] (mkConn connected all_ok)] s0)
      = attempts s0)
  /\ exec (handler_startDelayTimer ec_ok (mkConn connected all_ok)) init = init.
Proof.
  split; [|split; [|split]].
  - apply (proj1 retry_waits_for_the_start_delay []
             (Start (mkConn handshake_fails all_ok))
             (mkConn handshake_fails all_ok)).
    + reflexivity.
    + vm_compute. discriminate.
    + discriminate.
  - apply (proj1 (proj2 retry_waits_for_the_start_delay)
             [Start (mkConn handshake_fails all_ok)] 10).
    + reflexivity.
    + reflexivity.
    + reflexivity.
    + reflexivity.
    + vm_compute. lia.
  - apply (proj1 (proj2 (proj2 retry_waits_for_the_start_delay))
             [Start (mkConn handshake_fails all_ok)] []).
    reflexivity.
  - apply (proj2 (proj2 (proj2 retry_waits_for_the_start_delay))).
    reflexivity.
Defined.

(** C7, the claim as written fails.  A read error has dispatched a
    detached reconnect; before that thread takes the lock the caller
    stops and starts the client, and the attempt of this [start()]
    fails, which arms the start-delay timer for second 10.  The
    reconnect thread then takes the lock, finds DesiredState true,
    cancels the timer and makes the next attempt at once, at second 0,
    with no [stop()] in between. *)
Lemma stale_reconnect_attempts_before_the_delay :
  let s := run [Start (mkConn connected all_ok); PeerDrops;
                ReadCompletes (ec_fault 104) ""; Stop [];
                Start (mkConn resolve_fails all_ok)] init in
  let s' := step (ReconnectRuns [] (mkConn resolve_fails all_ok)) s in
  shouldBeActive s = true /\ start_delay_timer s = Some 10 /\
  clock s = 0 /\ attempts s = 2 /\
  clock s' = 0 /\ attempts s' = 3.
Proof. vm_compute. auto 7. Qed.

(** * Further properties of the object *)

(** ** Commands that keep a property *)

Lemma keeps_ret {A} (P : State -> Prop) (a : A) : keeps P (ret a).
Proof. intros s H. exact H. Qed.

Lemma keeps_gets {A} (P : State -> Prop) (g : State -> A) : keeps P (gets g).
Proof. intros s H. exact H. Qed.

Lemma keeps_modify (P : State -> Prop) (g : State -> State) :
  (forall s, P s -> P (g s)) -> keeps P (modify g).
Proof. intros H s. apply H. Qed.

Lemma keeps_bind {A B} (P : State -> Prop) (m : M A) (k : A -> M B) :
  keeps P m -> (forall a, keeps P (k a)) -> keeps P (bind m k).
Proof. intros Hm Hk s H. unfold bind. simpl. apply Hk, Hm, H. Qed.

Lemma keeps_when (P : State -> Prop) (b : bool) (m : M unit) :
  keeps P m -> keeps P (when b m).
Proof. intros H. destruct b; [exact H | apply keeps_ret]. Qed.

Lemma keeps_drain_loop (P : State -> Prop) :
  (forall s, P s -> P (drop_stream s)) ->
  (forall s m o ok, P s -> P (emit (OWrite true m o ok) s)) ->
  (forall s q, P s -> P (set_messages q s)) ->
  keeps P armMessageQueueTimer ->
  forall q w, keeps P (drain_loop q w).
Proof.
  intros Hd He Hm Ha q. induction q as [|m q IH]; intros w s H; [exact H|].
  rewrite drain_loop_unfold. cbv zeta.
  assert (H0 : P (if w_drop (w 0) then drop_stream s else s))
    by (destruct (w_drop (w 0)); auto).
  destruct (w_ok (w 0)).
  - apply IH, Hm, He, H0.
  - apply (Ha (emit _ _)), He, H0.
Qed.

Lemma keeps_finish_reads (P : State -> Prop) :
  (forall ec d, keeps P (read_complete ec d)) ->
  forall jr, keeps P (finish_reads jr).
Proof.
  intros H jr s.
  change (snd (finish_reads jr s)) with (exec (finish_reads jr) s).
  apply finish_reads_preserves. intros s1 ec d. apply H.
Qed.

Ltac keeps_with leaf :=
  repeat first
    [ apply keeps_ret
    | apply keeps_gets
    | apply keeps_bind; [ | intros ? ]
    | apply keeps_when
    | apply keeps_modify; leaf
    | apply keeps_drain_loop; [ leaf | leaf | leaf | ]
    | apply keeps_finish_reads; intros ? ?;
      unfold read_complete, handler_onread, handle_handler_error,
        startAsyncRead
    | match goal with
      | |- keeps _ (if ?b then _ else _) => destruct b
      | |- keeps _ (match outcome ?e with _ => _ end) => destruct (outcome e)
      end ].

(** ** The timers *)

Ltac leaf_timers :=
  let s1 := fresh "s" in
  let H := fresh "H" in
  intros s1; intros; unfold timers_bounded, drop_stream in *;
  try destruct (ws s1); simpl in *; intuition lia.

Lemma timers_start e : keeps timers_bounded (start e).
Proof. unfold_members. keeps_with leaf_timers. Qed.
Lemma timers_stop jr : keeps timers_bounded (stop jr).
Proof. unfold_members. keeps_with leaf_timers. Qed.
Lemma timers_sendMessage m b w : keeps timers_bounded (sendMessage m b w).
Proof. unfold_members. keeps_with leaf_timers. Qed.
Lemma timers_read_complete ec d : keeps timers_bounded (read_complete ec d).
Proof. unfold_members. keeps_with leaf_timers. Qed.
Lemma timers_doReconnect jr e : keeps timers_bounded (doReconnect jr e).
Proof. unfold_members. keeps_with leaf_timers. Qed.
Lemma timers_handler_startDelayTimer ec e :
  keeps timers_bounded (handler_startDelayTimer ec e).
Proof. unfold_members. keeps_with leaf_timers. Qed.
Lemma timers_handle_timerMessageQueue ec w :
  keeps timers_bounded (handle_timerMessageQueue ec w).
Proof. unfold_members. keeps_with leaf_timers. Qed.

Lemma timers_step c s : timers_bounded s -> timers_bounded (step c s).
Proof.
  intros H. destruct c; simpl; unfold exec.
  - apply timers_start, H.
  - apply timers_stop, H.
  - apply timers_sendMessage, H.
  - destruct (_ && _); [apply timers_read_complete|]; exact H.
  - destruct (_ <? _); [apply timers_doReconnect|]; exact H.
  - destruct (expired _ _); [apply timers_handler_startDelayTimer|]; [|exact H].
    unfold timers_bounded in *. simpl. tauto.
  - destruct (expired _ _); [apply timers_handle_timerMessageQueue|]; [|exact H].
    unfold timers_bounded in *. simpl. tauto.
  - unfold timers_bounded, drop_stream in *. destruct (ws s); exact H.
  - unfold timers_bounded in *. simpl.
    destruct (start_delay_timer s), (message_queue_timer s); intuition lia.
Qed.

Lemma timers_run cs : forall s, timers_bounded s -> timers_bounded (run cs s).
Proof.
  induction cs as [|c cs IH]; intros s H; simpl; [exact H|].
  apply IH, timers_step, H.
Qed.

(** X6.  In every reachable state a pending start-delay wait expires
    at most ten seconds from now and a pending queue-retry wait at
    most one second from now: no sequence of failures, cancellations
    and re-arming pushes a retry further out. *)
Theorem pending_timers_are_never_further_than_their_delay (cs : list call) :
  let s := run cs init in
  (forall t, start_delay_timer s = Some t -> t <= clock s + 10) /\
  (forall t, message_queue_timer s = Some t -> t <= clock s + 1).
Proof.
  intros s.
  assert (H : timers_bounded s) by (apply timers_run; split; exact I).
  unfold timers_bounded in H. destruct H as [H1 H2].
  split; intros t E; [rewrite E in H1 | rewrite E in H2]; assumption.
Qed.

Lemma pending_timers_are_never_further_than_their_delay_witness :
  (let s := run [Start (mkConn connected all_ok); Tick; PeerDrops;
                 ReadCompletes (ec_fault 104) "";
                 ReconnectRuns [] (mkConn resolve_fails all_ok); Tick] init in
   11 <= clock s + 10)
  /\ (let s := run [SendMessage "a" true all_ok;
                    Start (mkConn connected all_fail)] init in
      1 <= clock s + 1).
Proof.
  split.
  - apply (proj1 (pending_timers_are_never_further_than_their_delay
                    [Start (mkConn connected all_ok); Tick; PeerDrops;
                     ReadCompletes (ec_fault 104) "";
                     ReconnectRuns [] (mkConn resolve_fails all_ok); Tick]) 11).
    vm_compute. reflexivity.
  - apply (proj2 (pending_timers_are_never_further_than_their_delay
                    [SendMessage "a" true all_ok;
                     Start (mkConn connected all_fail)]) 1).
    vm_compute. reflexivity.
Defined.

(** ** DesiredState *)

Lemma active_internalStart e : preserves shouldBeActive (internalStart e).
Proof. unfold_members. pres_with leaf_refl. Qed.
Lemma active_sendMessage m b w : preserves shouldBeActive (sendMessage m b w).
Proof. unfold_members. pres_with leaf_refl. Qed.
Lemma active_read_complete ec d : preserves shouldBeActive (read_complete ec d).
Proof. unfold_members. pres_with leaf_refl. Qed.
Lemma active_doReconnect jr e : preserves shouldBeActive (doReconnect jr e).
Proof. unfold_members. pres_with leaf_refl. Qed.
Lemma active_handler_startDelayTimer ec e :
  preserves shouldBeActive (handler_startDelayTimer ec e).
Proof. unfold_members. pres_with leaf_refl. Qed.
Lemma active_handle_timerMessageQueue ec w :
  preserves shouldBeActive (handle_timerMessageQueue ec w).
Proof. unfold_members. pres_with leaf_refl. Qed.

(** X10.  Only the caller sets DesiredState: [start()] leaves it true,
    [stop()] leaves it false, and no send, read completion, timer
    expiry, reconnect, connection drop or failed attempt changes it,
    from any state. *)
Theorem only_start_and_stop_change_desired_state (c : call) (s : State) :
  shouldBeActive (step c s)
  = match c with
    | Start _ => true
    | Stop _ => false
    | _ => shouldBeActive s
    end.
Proof.
  destruct c.
  - rewrite step_Start. destruct (shouldBeActive s) eqn:Ea; [exact Ea|].
    unfold exec. rewrite active_internalStart. reflexivity.
  - apply stop_inactive.
  - apply active_sendMessage.
  - simpl. destruct (_ && _); [apply active_read_complete | reflexivity].
  - simpl. destruct (_ <? _); [|reflexivity].
    unfold exec. rewrite active_doReconnect. reflexivity.
  - simpl. destruct (expired _ _); [|reflexivity].
    unfold exec. rewrite active_handler_startDelayTimer. reflexivity.
  - simpl. destruct (expired _ _); [|reflexivity].
    unfold exec. rewrite active_handle_timerMessageQueue. reflexivity.
  - simpl. unfold drop_stream. destruct (ws s); reflexivity.
  - reflexivity.
Qed.

(** X1.  [stop()] while DesiredState is false changes nothing at all,
    so a [stop()] before any [start()] is a no-op and a second
    [stop()] in a row does nothing more than the first, whatever
    state the first was called in. *)
Theorem stop_twice_is_stop_once :
  (forall jr s, shouldBeActive s = false -> step (Stop jr) s = s) /\
  (forall jr, step (Stop jr) init = init) /\
  (forall jr1 jr2 s, step (Stop jr2) (step (Stop jr1) s) = step (Stop jr1) s).
Proof.
  assert (H : forall jr s, shouldBeActive s = false -> step (Stop jr) s = s)
    by (intros jr s Ea; rewrite step_Stop, Ea; reflexivity).
  split; [exact H|]. split.
  - intros jr. apply H. reflexivity.
  - intros jr1 jr2 s. apply H, stop_inactive.
Qed.

Lemma stop_twice_is_stop_once_witness :
  step (Stop [])
    (run [SendMessage "a" true all_ok; ReadCompletes ec_ok "x"; Tick] init)
  = run [SendMessage "a" true all_ok; ReadCompletes ec_ok "x"; Tick] init.
Proof.
  apply (proj1 stop_twice_is_stop_once). reflexivity.
Defined.

(** ** The worker, the work guard and the reads *)

Lemma reads_sendMessage m b w : preserves reads (sendMessage m b w).
Proof. unfold_members. pres_with leaf_refl. Qed.
Lemma reads_handle_timerMessageQueue ec w :
  preserves reads (handle_timerMessageQueue ec w).
Proof. unfold_members. pres_with leaf_refl. Qed.

Lemma read_has_handle_step c s :
  Inv s -> read_has_handle s -> read_has_handle (step c s).
Proof.
  intros I H.
  assert (F : forall s', footing s' = footing s -> reads s' = reads s ->
                         read_has_handle s').
  { unfold footing, read_has_handle. intros s' E1 E2.
    injection E1 as _ _ E3. rewrite E2, E3. exact H. }
  destruct (Nat.eq_dec (attempts (step c s)) (attempts s)) as [Heq|Hne].
  - pose proof (Inv_step c s I) as [_ _ _ Hidle Hd _ _].
    destruct c.
    + rewrite step_Start in *. destruct (shouldBeActive s) eqn:Ea; [exact H|].
      exfalso. revert Heq. destruct I as [Hw _ Hi _ _ _ _].
      rewrite internalStart_idle by (simpl; congruence).
      match goal with |- context [exec (attempt_then_retry e) ?x] =>
        destruct (attempt_then_retry_spec e x) as (A1 & _)
      end.
      rewrite A1. unfold attempts. simpl. rewrite !count_snoc. simpl. lia.
    + intros Hr. destruct (Hidle (stop_inactive jr s)) as (_ & _ & E & _). lia.
    + apply F; [apply footing_sendMessage | apply reads_sendMessage].
    + simpl. destruct (io_running s && (0 <? reads s)) eqn:E; [|exact H].
      apply andb_prop in E as [_ E]. apply Nat.ltb_lt in E.
      intros _. pose proof (footing_read_complete ec data s) as E1.
      unfold footing in E1. injection E1 as _ _ E3.
      unfold exec. rewrite E3. apply H, E.
    + rewrite step_ReconnectRuns in *.
      destruct (0 <? reconnects s); [|exact H].
      destruct (shouldBeActive s) eqn:Ea; [|exact H].
      exfalso. revert Heq. destruct I as [Hw _ Hi _ _ Hr _].
      destruct (internalStop_Stopped jr (set_reconnects (pred (reconnects s)) s))
        as [_ _ _ _ S5 _ S7 _ _ _ _ _ _ S14 _]; simpl; try congruence.
      rewrite internalStart_idle by assumption.
      match goal with |- context [exec (attempt_then_retry e) ?x] =>
        destruct (attempt_then_retry_spec e x) as (A1 & _)
      end.
      rewrite A1. unfold attempts in *. simpl in *.
      rewrite !count_snoc, S14. simpl. lia.
    + rewrite step_StartDelayFires in *.
      destruct (expired _ s); [|exact H].
      destruct (shouldBeActive s) eqn:Ea; [|exact H].
      exfalso. revert Heq.
      match goal with |- context [exec (attempt_then_retry e) ?x] =>
        destruct (attempt_then_retry_spec e x) as (A1 & _)
      end.
      rewrite A1. unfold attempts. simpl. lia.
    + simpl. destruct (expired _ s); [|exact H].
      unfold exec. intros Hr.
      rewrite reads_handle_timerMessageQueue in Hr.
      pose proof (footing_handle_timerMessageQueue ec_ok w
                    (set_message_queue_timer None s)) as E1.
      unfold footing in E1. injection E1 as _ _ E3. rewrite E3. apply H, Hr.
    + simpl. apply F; unfold footing, drop_stream, ws_present;
        destruct (ws s) eqn:E; simpl; rewrite ?E; reflexivity.
    + exact H.
  - destruct (after_attempt c s I Hne) as (e & _ & _ & _ & _ & A).
    intros Hr. destruct (outcome e); try tauto.
    all: destruct A as (_ & _ & A & _); lia.
Qed.

Lemma read_has_handle_run cs : forall s,
  Inv s -> read_has_handle s -> read_has_handle (run cs s).
Proof.
  induction cs as [|c cs IH]; intros s I H; simpl; [exact H|].
  apply IH; [apply Inv_step, I | apply read_has_handle_step; assumption].
Qed.

(** X7.  In every reachable state at most one read is outstanding;
    a read is outstanding only while DesiredState is true, no
    start-delay wait is pending and a handle exists. *)
Theorem at_most_one_outstanding_read (cs : list call) :
  let s := run cs init in
  reads s <= 1 /\
  (0 < reads s ->
   shouldBeActive s = true /\ start_delay_timer s = None /\
   ws_present s = true).
Proof.
  intros s.
  assert (I : Inv s) by (apply Inv_reachable; eexists; reflexivity).
  assert (H : read_has_handle s).
  { apply read_has_handle_run; [apply Inv_init|]. intros E. inversion E. }
  pose proof I as [_ _ _ Hidle Hd Hr _].
  split; [exact Hr|]. intros Hpos. repeat split.
  - destruct (shouldBeActive s); [reflexivity|].
    destruct (Hidle eq_refl) as (_ & _ & E & _). lia.
  - destruct (start_delay_timer s) eqn:Et; [|reflexivity].
    destruct Hd as [_ E]; [discriminate | lia].
  - apply H, Hpos.
Qed.

Lemma at_most_one_outstanding_read_witness :
  let s := run [Start (mkConn connected all_ok); ReadCompletes ec_ok "x";
                ReadCompletes ec_ok "y"] init in
  shouldBeActive s = true /\ start_delay_timer s = None /\
  ws_present s = true.
Proof.
  apply (proj2 (at_most_one_outstanding_read
                  [Start (mkConn connected all_ok); ReadCompletes ec_ok "x";
                   ReadCompletes ec_ok "y"])).
  vm_compute. apply le_n.
Defined.

(** X8.  In every reachable state the worker thread handle and the
    work guard exist exactly when DesiredState is true, the
    [io_context] is not left stopped, so the event loop runs exactly
    when DesiredState is true, and both timers are idle while it is
    false. *)
Theorem worker_runs_exactly_while_active (cs : list call) :
  let s := run cs init in
  worker s = shouldBeActive s /\ work s = shouldBeActive s /\
  ioc_stopped s = false /\ io_running s = shouldBeActive s /\
  (if shouldBeActive s then True
   else start_delay_timer s = None /\ message_queue_timer s = None).
Proof.
  intros s.
  assert (I : Inv s) by (apply Inv_reachable; eexists; reflexivity).
  destruct I as [Hw Hk Hi Hidle _ _ _].
  unfold io_running. rewrite Hw, Hk, Hi, andb_true_r.
  repeat split. destruct (shouldBeActive s); [exact I|].
  destruct (Hidle eq_refl) as (E1 & E2 & _). auto.
Qed.

(** ** The reconnect *)



(** ** Attempts and the queue *)

(** X3.  Whenever a call makes a connection attempt that succeeds and
    no write of the drain that follows throws, the queue is empty
    afterwards and every message that was queued has been written, in
    queue order, after what the drain had written before: by
    [start()], by a reconnect or by the start-delay timer alike. *)
Theorem successful_attempt_empties_the_queue (cs : list call) (c : call)
    (e : conn_env) :
  let s := run cs init in
  let s' := step c s in
  attempt_env c = Some e -> attempts s' <> attempts s ->
  outcome e = connected -> (forall i, w_ok (drain_env e i) = true) ->
  messages s' = [] /\
  queue_written (trace s') = queue_written (trace s) ++ messages s.
Proof.
  intros s s' Hc Hne Ho Hok.
  assert (I : Inv s) by (apply Inv_reachable; eexists; reflexivity).
  assert (Em : messages s' = []).
  { destruct (attempt_step c s I Hne)
      as (e' & s1 & Hc' & [Ra _ _ _ _ _ _ _] & E & _).
    assert (e' = e) by congruence. subst e'.
    unfold s'. rewrite E, attempt_connected_eq by exact Ho.
    unfold trySendMessageQueue, exec, bind, gets, modify, ret, live.
    simpl. rewrite Ra. simpl.
    rewrite drain_loop_messages by reflexivity.
    rewrite leading_ok_all by exact Hok. apply skipn_all. }
  split; [exact Em|].
  pose proof (fifo_step c s) as F. fold s' in F.
  unfold fifo_sum in F. rewrite Em, app_nil_r in F. rewrite F.
  destruct c; try discriminate; simpl; rewrite app_nil_r; reflexivity.
Qed.

Lemma successful_attempt_empties_the_queue_witness :
  let s := run [SendMessage "ping" true all_ok;
                Start (mkConn resolve_fails all_ok);
                SendMessage "pong" true all_ok;
                Tick; Tick; Tick; Tick; Tick; Tick; Tick; Tick; Tick; Tick]
             init in
  let s' := step (StartDelayFires (mkConn connected all_ok)) s in
  messages s' = [] /\
  queue_written (trace s') = queue_written (trace s) ++ messages s.
Proof.
  apply (successful_attempt_empties_the_queue
           [SendMessage "ping" true all_ok;
            Start (mkConn resolve_fails all_ok);
            SendMessage "pong" true all_ok;
            Tick; Tick; Tick; Tick; Tick; Tick; Tick; Tick; Tick; Tick]
           (StartDelayFires (mkConn connected all_ok))
           (mkConn connected all_ok)).
  - reflexivity.
  - vm_compute. discriminate.
  - reflexivity.
  - intros i. reflexivity.
Defined.

Lemma messages_start_failing e :
  outcome e <> connected -> preserves messages (start e).
Proof.
  intros H. unfold_members. destruct (outcome e); try congruence;
    pres_with leaf_refl.
Qed.
Lemma messages_doReconnect_failing jr e :
  outcome e <> connected -> preserves messages (doReconnect jr e).
Proof.
  intros H. unfold_members. destruct (outcome e); try congruence;
    pres_with leaf_refl.
Qed.
Lemma messages_handler_startDelayTimer_failing ec e :
  outcome e <> connected -> preserves messages (handler_startDelayTimer ec e).
Proof.
  intros H. unfold_members. destruct (outcome e); try congruence;
    pres_with leaf_refl.
Qed.

(** X4.  A [start()], reconnect or start-delay expiry whose
    connection attempt fails (or that returns without an attempt)
    neither writes from the queue nor changes it, from any state:
    failed attempts, retries and reconnects cost no queued message. *)
Theorem failed_attempt_leaves_the_queue (c : call) (e : conn_env) (s : State) :
  attempt_env c = Some e -> outcome e <> connected ->
  messages (step c s) = messages s /\
  queue_written (trace (step c s)) = queue_written (trace s).
Proof.
  intros Hc Ho.
  assert (Em : messages (step c s) = messages s).
  { destruct c; try discriminate; injection Hc as ->; simpl.
    - apply messages_start_failing, Ho.
    - destruct (_ <? _); [|reflexivity].
      unfold exec. rewrite messages_doReconnect_failing by exact Ho.
      reflexivity.
    - destruct (expired _ _); [|reflexivity].
      unfold exec. rewrite messages_handler_startDelayTimer_failing by exact Ho.
      reflexivity. }
  split; [exact Em|].
  pose proof (fifo_step c s) as F. unfold fifo_sum in F. rewrite Em in F.
  assert (En : enqueued [c] = []) by (destruct c; try discriminate; reflexivity).
  rewrite En, app_nil_r in F. apply app_inv_tail in F. exact F.
Qed.

Lemma failed_attempt_leaves_the_queue_witness :
  let s := run [Start (mkConn connected all_fail);
                SendMessage "a" true all_fail; PeerDrops;
                ReadCompletes (ec_fault 104) ""] init in
  let c := ReconnectRuns [] (mkConn connect_fails all_ok) in
  messages (step c s) = messages s /\
  queue_written (trace (step c s)) = queue_written (trace s).
Proof.
  apply (failed_attempt_leaves_the_queue
           (ReconnectRuns [] (mkConn connect_fails all_ok))
           (mkConn connect_fails all_ok)).
  - reflexivity.
  - discriminate.
Defined.

(** ** The start-delay timer when it is due *)

(** X5.  In a reachable state with DesiredState true and the
    start-delay wait expired, the handler makes exactly one connection
    attempt and the expired wait is gone: after a success no wait is
    pending and a read is outstanding, after a failure the wait is
    armed again ten seconds after the moment of the attempt. *)
Theorem due_retry_makes_one_attempt (cs : list call) (e : conn_env) (t : nat) :
  let s := run cs init in
  let s' := step (StartDelayFires e) s in
  shouldBeActive s = true -> start_delay_timer s = Some t -> t <= clock s ->
  attempts s' = S (attempts s) /\
  shouldBeActive s' = true /\ clock s' = clock s /\
  spawned s' = spawned s /\ joined s' = joined s /\
  match outcome e with
  | connected => start_delay_timer s' = None /\ reads s' = 1
  | _ => start_delay_timer s' = Some (clock s + start_delay) /\ reads s' = 0
  end.
Proof.
  intros s s' Ea Et Hle.
  assert (I : Inv s) by (apply Inv_reachable; eexists; reflexivity).
  pose proof I as [Hw _ Hi _ Hd _ _].
  destruct Hd as [_ Hr]; [congruence|].
  assert (E : s' = exec (attempt_then_retry e) (set_start_delay_timer None s)).
  { unfold s'. rewrite step_StartDelayFires, Et, Ea. simpl.
    unfold io_running. rewrite Hw, Ea, Hi. simpl.
    apply Nat.leb_le in Hle. rewrite Hle. reflexivity. }
  destruct (attempt_then_retry_spec e (set_start_delay_timer None s))
    as (A1 & A2 & A3 & A4 & A5 & A6 & A7 & A8).
  rewrite <- E in A1, A2, A3, A4, A5, A6, A7, A8.
  unfold spawned, joined, attempts in *. simpl in *.
  repeat match goal with |- _ /\ _ => split end; try congruence.
  destruct (outcome e).
  1-3: destruct A8 as (B1 & B2 & _); split; congruence.
  destruct A8 as (B1 & _ & B3 & _); split; congruence.
Qed.

Lemma due_retry_makes_one_attempt_witness :
  let s := run [Start (mkConn resolve_fails all_ok);
                Tick; Tick; Tick; Tick; Tick; Tick; Tick; Tick; Tick; Tick]
             init in
  let s' := step (StartDelayFires (mkConn handshake_fails all_ok)) s in
  attempts s' = S (attempts s) /\
  shouldBeActive s' = true /\ clock s' = clock s /\
  spawned s' = spawned s /\ joined s' = joined s /\
  match outcome (mkConn handshake_fails all_ok) with
  | connected => start_delay_timer s' = None /\ reads s' = 1
  | _ => start_delay_timer s' = Some (clock s + start_delay) /\ reads s' = 0
  end.
Proof.
  apply (due_retry_makes_one_attempt
           [Start (mkConn resolve_fails all_ok);
            Tick; Tick; Tick; Tick; Tick; Tick; Tick; Tick; Tick; Tick]
           (mkConn handshake_fails all_ok) 10).
  - reflexivity.
  - reflexivity.
  - vm_compute. apply le_n.
Defined.

(** ** The handle *)

Ltac leaf_present :=
  let s1 := fresh "s" in
  let E := fresh "E" in
  intros s1; intros; unfold has_handle, drop_stream, ws_present in *;
  destruct (ws s1) eqn:E; simpl in *; rewrite ?E; auto; congruence.

Lemma handle_start e : keeps has_handle (start e).
Proof. unfold_members. keeps_with leaf_present. Qed.
Lemma handle_stop jr : keeps has_handle (stop jr).
Proof. unfold_members. keeps_with leaf_present. Qed.
Lemma handle_sendMessage m b w : keeps has_handle (sendMessage m b w).
Proof. unfold_members. keeps_with leaf_present. Qed.
Lemma handle_read_complete ec d : keeps has_handle (read_complete ec d).
Proof. unfold_members. keeps_with leaf_present. Qed.
Lemma handle_doReconnect jr e : keeps has_handle (doReconnect jr e).
Proof. unfold_members. keeps_with leaf_present. Qed.
Lemma handle_handler_startDelayTimer ec e :
  keeps has_handle (handler_startDelayTimer ec e).
Proof. unfold_members. keeps_with leaf_present. Qed.
Lemma handle_handle_timerMessageQueue ec w :
  keeps has_handle (handle_timerMessageQueue ec w).
Proof. unfold_members. keeps_with leaf_present. Qed.

Lemma handle_step c s : has_handle s -> has_handle (step c s).
Proof.
  intros H. destruct c; simpl; unfold exec.
  - apply handle_start, H.
  - apply handle_stop, H.
  - apply handle_sendMessage, H.
  - destruct (_ && _); [apply handle_read_complete|]; exact H.
  - destruct (_ <? _); [apply handle_doReconnect|]; exact H.
  - destruct (expired _ _); [apply handle_handler_startDelayTimer|]; exact H.
  - destruct (expired _ _); [apply handle_handle_timerMessageQueue|]; exact H.
  - unfold has_handle, drop_stream, ws_present in *.
    destruct (ws s) eqn:E; simpl; rewrite ?E; auto.
  - exact H.
Qed.

Lemma handle_run cs : forall s, has_handle s -> has_handle (run cs s).
Proof.
  induction cs as [|c cs IH]; intros s H; simpl; [exact H|].
  apply IH, handle_step, H.
Qed.

(** X9.  The handle is never discarded: once [ws] has a value it has
    one after every further call, completion, expiry and drop, also
    after [stop()].  So from then on [sendMessage(m, false)] never
    answers [false] for want of a handle: it always attempts its
    write, on whatever stream is there, and answers whether that
    write returned. *)
Theorem handle_is_never_discarded (s : State) (cs : list call) (m : string)
    (w : wstream) :
  ws_present s = true ->
  let s' := run cs s in
  ws_present s' = true /\
  fst (sendMessage m false w s') = w_ok (w 0) /\
  snd (sendMessage m false w s')
  = emit (OWrite false m (ws_open s') (w_ok (w 0))) s'.
Proof.
  intros H s'.
  assert (H' : ws_present s' = true) by (apply handle_run, H).
  split; [exact H'|].
  unfold sendMessage, bind, gets, modify, ret. simpl. rewrite H'.
  split; reflexivity.
Qed.

Lemma handle_is_never_discarded_witness :
  let s' := run [Stop []] (run [Start (mkConn connect_fails all_ok)] init) in
  ws_present s' = true /\
  fst (sendMessage "m" false all_ok s') = w_ok (all_ok 0) /\
  snd (sendMessage "m" false all_ok s')
  = emit (OWrite false "m" (ws_open s') (w_ok (all_ok 0))) s'.
Proof.
  apply (handle_is_never_discarded
           (run [Start (mkConn connect_fails all_ok)] init) [Stop []]).
  reflexivity.
Defined.

(** ** The callback *)

Lemma delivered_app t u : delivered (t ++ u) = delivered t ++ delivered u.
Proof.
  induction t as [|o t IH]; simpl; [reflexivity|].
  destruct o; simpl; rewrite ?IH; reflexivity.
Qed.

Ltac leaf_delivered :=
  let s1 := fresh "s" in
  intros s1; intros; unfold drop_stream;
  try destruct (ws s1); simpl;
  rewrite ?delivered_app; simpl; rewrite ?app_nil_r; reflexivity.

Ltac quiet_members :=
  unfold_members; cbn [finish_reads];
  unfold read_complete, handler_onread, handle_handler_error;
  cbn [ec_set ec_is_aborted].

Lemma delivered_start e : preserves (fun s => delivered (trace s)) (start e).
Proof. quiet_members. pres_with leaf_delivered. Qed.
Lemma delivered_stop_quiet :
  preserves (fun s => delivered (trace s)) (stop []).
Proof. quiet_members. pres_with leaf_delivered. Qed.
Lemma delivered_sendMessage m b w :
  preserves (fun s => delivered (trace s)) (sendMessage m b w).
Proof. quiet_members. pres_with leaf_delivered. Qed.
Lemma delivered_doReconnect_quiet e :
  preserves (fun s => delivered (trace s)) (doReconnect [] e).
Proof. quiet_members. pres_with leaf_delivered. Qed.
Lemma delivered_handler_startDelayTimer ec e :
  preserves (fun s => delivered (trace s)) (handler_startDelayTimer ec e).
Proof. quiet_members. pres_with leaf_delivered. Qed.
Lemma delivered_handle_timerMessageQueue ec w :
  preserves (fun s => delivered (trace s)) (handle_timerMessageQueue ec w).
Proof. quiet_members. pres_with leaf_delivered. Qed.

(** X11.  The callback receives a payload only from a read that
    completed without error, once, and it is the whole buffer with
    the bytes of that read; the buffer is empty afterwards.  No other
    call invokes the callback: not a read that completed with an
    error, not [start()], [stop()], a send, a timer or a reconnect
    (as long as no read completes while they wait for the worker). *)
Theorem callback_gets_each_read_once (c : call) (s : State) :
  quiet_join c = true ->
  delivered (trace (step c s))
  = delivered (trace s)
    ++ match c with
       | ReadCompletes ec_ok data =>
           if io_running s && (0 <? reads s) then [(buf s ++ data)%string] else []
       | _ => []
       end
  /\ match c with
     | ReadCompletes ec_ok _ =>
         if io_running s && (0 <? reads s) then buf (step c s) = "" else True
     | _ => True
     end.
Proof.
  intros Hq.
  destruct c as [e|[|]|m b w|ec d|[|] e|e|w| |]; try discriminate;
    simpl; unfold exec.
  - rewrite delivered_start, app_nil_r. auto.
  - rewrite delivered_stop_quiet, app_nil_r. auto.
  - rewrite delivered_sendMessage, app_nil_r. auto.
  - destruct (io_running s && (0 <? reads s)).
    + unfold read_complete, handler_onread, handle_handler_error,
        startAsyncRead, bind, gets, modify, ret.
      destruct ec; simpl; rewrite ?delivered_app; simpl;
        rewrite ?app_nil_r; auto.
    + destruct ec; rewrite app_nil_r; auto.
  - destruct (_ <? _); [rewrite delivered_doReconnect_quiet|];
      rewrite app_nil_r; auto.
  - destruct (expired _ _); [rewrite delivered_handler_startDelayTimer|];
      rewrite app_nil_r; auto.
  - destruct (expired _ _); [rewrite delivered_handle_timerMessageQueue|];
      rewrite app_nil_r; auto.
  - unfold drop_stream. destruct (ws s); rewrite app_nil_r; auto.
  - rewrite app_nil_r. auto.
Qed.

Lemma callback_gets_each_read_once_witness :
  let s := run [Start (mkConn connected all_ok); ReadCompletes ec_ok "one"]
             init in
  let c := ReadCompletes ec_ok "two" in
  delivered (trace (step c s))
  = delivered (trace s)
    ++ match c with
       | ReadCompletes ec_ok data =>
           if io_running s && (0 <? reads s) then [(buf s ++ data)%string] else []
       | _ => []
       end
  /\ match c with
     | ReadCompletes ec_ok _ =>
         if io_running s && (0 <? reads s) then buf (step c s) = "" else True
     | _ => True
     end.
Proof.
  intros s c. apply (callback_gets_each_read_once c s). reflexivity.
Defined.
